(** * dm_control.autowrap.binding_generator: a shallow embedding

    The Python class [BindingGenerator] keeps five symbol tables and
    fills them from token trees produced by the pyparsing grammars of
    [header_parsing].  Tables are insertion-ordered, so they are
    association lists here; the generator's methods run in a small
    state-and-exception monad over the record of the five tables. *)

From Stdlib Require Import ZArith String Ascii List Bool Lia.
From stdpp Require Import base option list gmap.
Import ListNotations.

Set Warnings "-register-all".

Local Open Scope string_scope.
Local Open Scope list_scope.
Local Open Scope Z_scope.

(** ** Python values *)

(** The values that reach the tables: [None], booleans, integers,
    strings and tuples (shapes). *)
Inductive pyval : Type :=
| VNone
| VBool (b : bool)
| VInt (z : Z)
| VStr (s : string)
| VTuple (items : list pyval).

(** [bool(v)]: Python truthiness. *)
Definition truthy (v : pyval) : bool :=
  match v with
  | VNone => false
  | VBool b => b
  | VInt z => negb (z =? 0)
  | VStr s => negb (String.eqb s "")
  | VTuple items => match items with [] => false | _ => true end
  end.

(** [bool(s)] for a string attribute of a pyparsing token: a named
    result that did not match reads as the empty string. *)
Definition str_truthy (s : string) : bool := negb (String.eqb s "").

(** [isinstance(v, int)]; [bool] is a subclass of [int]. *)
Definition isinstance_int (v : pyval) : bool :=
  match v with
  | VInt _ | VBool _ => true
  | _ => false
  end.

(** [d != 1]: only an integer (or boolean) equal to one compares equal
    to [1]; strings and tuples never do. *)
Definition ne_one (d : pyval) : bool :=
  match d with
  | VInt z => negb (z =? 1)
  | VBool b => negb b
  | _ => true
  end.

(** [a or b] on values. *)
Definition py_or (a b : pyval) : pyval := if truthy a then a else b.

(** ** Exceptions *)

Inductive exn : Type :=
| DuplicateKeyError (key : string)
| ValueError (what : string)
| NameError (name : string)
| RecursionError.

Inductive result (A : Type) : Type :=
| Ok (a : A)
| Raise (e : exn).
Arguments Ok {A} a.
Arguments Raise {A} e.

Definition rbind {A B} (r : result A) (k : A -> result B) : result B :=
  match r with
  | Ok a => k a
  | Raise e => Raise e
  end.

Declare Scope result_scope.
Delimit Scope result_scope with res.
Notation "x <- r ;; k" := (rbind r (fun x => k))
  (at level 100, r at next level, right associativity) : result_scope.

(** A comprehension [[f(x) for x in l]]: left to right, the first
    exception ends it. *)
Fixpoint mapR {A B} (f : A -> result B) (l : list A) : result (list B) :=
  match l with
  | [] => Ok []
  | x :: xs => (y <- f x ;; ys <- mapR f xs ;; Ok (y :: ys))%res
  end.

(** ** Strings *)

(** ["*" in s] for a one-character needle. *)
Fixpoint str_contains (c : ascii) (s : string) : bool :=
  match s with
  | EmptyString => false
  | String a rest => Ascii.eqb a c || str_contains c rest
  end.

(** [s.split(c)] for a one-character separator: always at least one
    part, empty parts kept. *)
Fixpoint str_split (c : ascii) (s : string) : list string :=
  match s with
  | EmptyString => [EmptyString]
  | String a rest =>
      if Ascii.eqb a c then EmptyString :: str_split c rest
      else match str_split c rest with
           | p :: ps => String a p :: ps
           | [] => [String a EmptyString]
           end
  end.

(** *** [int(s)] on a string *)

Definition is_space (c : ascii) : bool :=
  let n := nat_of_ascii c in
  ((9 <=? n) && (n <=? 13) || (28 <=? n) && (n <=? 32))%nat.

Definition is_digit (c : ascii) : bool :=
  let n := nat_of_ascii c in ((48 <=? n) && (n <=? 57))%nat.

Definition digit_val (c : ascii) : Z := Z.of_nat (nat_of_ascii c) - 48.

Fixpoint lstrip (s : string) : string :=
  match s with
  | String c rest => if is_space c then lstrip rest else s
  | EmptyString => EmptyString
  end.

Fixpoint rstrip (s : string) : string :=
  match s with
  | EmptyString => EmptyString
  | String c rest =>
      match rstrip rest with
      | EmptyString => if is_space c then EmptyString else String c EmptyString
      | rest' => String c rest'
      end
  end.

(** Decimal digits, a single underscore allowed between two digits.
    [sep] says that a digit must come next. *)
Fixpoint digits (acc : Z) (sep : bool) (s : string) : option Z :=
  match s with
  | EmptyString => if sep then None else Some acc
  | String c rest =>
      if is_digit c then digits (acc * 10 + digit_val c) false rest
      else if Ascii.eqb c "_" && negb sep then digits acc true rest
      else None
  end.

(** [int(s)], base ten: surrounding whitespace, an optional sign, then
    digits; anything else is a [ValueError]. *)
Definition py_int (s : string) : result Z :=
  let body := rstrip (lstrip s) in
  let parsed :=
    match body with
    | String "-" rest => option_map Z.opp (digits 0 true rest)
    | String "+" rest => digits 0 true rest
    | _ => digits 0 true body
    end in
  match parsed with
  | Some z => Ok z
  | None => Raise (ValueError s)
  end.

(** [a << b] on integers: a negative count is a [ValueError]. *)
Definition py_lshift (a b : Z) : result Z :=
  if b <? 0 then Raise (ValueError "negative shift count")
  else Ok (Z.shiftl a b).

(** ** Ordered dictionaries *)

(** A [dict] with string keys, in insertion order. *)
Definition dict (V : Type) : Type := list (string * V).

Fixpoint dict_get {V} (d : dict V) (k : string) : option V :=
  match d with
  | [] => None
  | (k', v) :: rest => if String.eqb k' k then Some v else dict_get rest k
  end.

Definition dict_has {V} (d : dict V) (k : string) : bool :=
  match dict_get d k with Some _ => true | None => false end.

Definition dict_keys {V} (d : dict V) : list string := map fst d.
Definition dict_values {V} (d : dict V) : list V := map snd d.

(** [d[k] = v] on a plain [dict]: an existing key keeps its place and
    takes the new value, a new key goes last. *)
Fixpoint dict_setitem {V} (d : dict V) (k : string) (v : V) : dict V :=
  match d with
  | [] => [(k, v)]
  | (k', v') :: rest =>
      if String.eqb k' k then (k', v) :: rest
      else (k', v') :: dict_setitem rest k v
  end.

(** [d.update(e)]: the entries of [e] in order, each as [d[k] = v]. *)
Definition dict_update {V} (d e : dict V) : dict V :=
  fold_left (fun acc kv => dict_setitem acc (fst kv) (snd kv)) e d.

(** Lookup of an arbitrary value as a key: only strings are keys. *)
Definition value_get (d : dict pyval) (key : pyval) : option pyval :=
  match key with
  | VStr s => dict_get d s
  | _ => None
  end.

(** ** What the generator imports from [codegen_util] *)

(** Modelled from the spec: [codegen_util.UniqueOrderedDict], the class
    of the five symbol tables, is not among the sources.  The spec's
    UniqueOrderedTable is an ordered mapping that keeps insertion order
    and fails with a duplicate-key error when a key already present is
    inserted again.  It is a dictionary subclass: reading, [copy] and
    [update] are those of [dict]. *)
Definition UniqueOrderedDict (V : Type) : Type := dict V.

Definition UniqueOrderedDict_setitem {V}
    (d : UniqueOrderedDict V) (k : string) (v : V)
  : result (UniqueOrderedDict V) :=
  if dict_has d k then Raise (DuplicateKeyError k) else Ok (d ++ [(k, v)]).

(** [d.setdefault(k, default)], inherited from the ordered dictionary:
    the stored value when [k] is present, else [d[k] = default]. *)
Definition UniqueOrderedDict_setdefault {V}
    (d : UniqueOrderedDict V) (k : string) (default : V)
  : result (V * UniqueOrderedDict V) :=
  match dict_get d k with
  | Some v => Ok (v, d)
  | None => (d' <- UniqueOrderedDict_setitem d k default ;; Ok (default, d'))%res
  end.

(** The class of a mapping object.  The generator makes its own tables
    as [UniqueOrderedDict]s, but it keeps any non-empty mapping its
    caller passes, and the documented argument is a mapping: a plain
    [dict] is the other class that is modelled. *)
Inductive mapping_class : Type :=
| dict_class
| UniqueOrderedDict_class.

(** [d[k] = v], by the class of [d]. *)
Definition mapping_setitem {V} (c : mapping_class) (d : dict V) (k : string) (v : V)
  : result (dict V) :=
  match c with
  | dict_class => Ok (dict_setitem d k v)
  | UniqueOrderedDict_class => UniqueOrderedDict_setitem d k v
  end.

(** [d.setdefault(k, default)], by the class of [d]. *)
Definition mapping_setdefault {V} (c : mapping_class) (d : dict V) (k : string)
    (default : V) : result (V * dict V) :=
  match c with
  | dict_class =>
      match dict_get d k with
      | Some v => Ok (v, d)
      | None => Ok (default, dict_setitem d k default)
      end
  | UniqueOrderedDict_class => UniqueOrderedDict_setdefault d k default
  end.

(** Modelled from the spec: [codegen_util.recursive_dict_lookup] is not
    among the sources.  The spec has it look the key up by name,
    chasing through to a terminal value: a value that is itself a key
    is looked up again.  A table of [n] entries has chains of at most
    [n] steps unless it is cyclic; on a cyclic table there is no
    terminal value and the chase stops after [n] steps. *)
Fixpoint chase (steps : nat) (d : dict pyval) (key : pyval) : pyval :=
  match steps with
  | O => key
  | S n => match value_get d key with
           | Some v => chase n d v
           | None => key
           end
  end.

Definition recursive_dict_lookup (key : pyval) (try_dict : dict pyval) : pyval :=
  chase (length try_dict) try_dict key.

(** Modelled from the spec: [codegen_util.try_coerce_to_num] is not
    among the sources.  The spec knows integers only: something that
    can be coerced to an integer gives that integer, anything else
    comes back as it is (a string stays a string). *)
Definition try_coerce_to_num (s : pyval) : pyval :=
  match s with
  | VInt z => VInt z
  | VBool b => VInt (if b then 1 else 0)
  | VStr str => match py_int str with
                | Ok z => VInt z
                | Raise _ => VStr str
                end
  | other => other
  end.

(** The two helpers on x-macro names; the spec says only that a name
    can mark its table as a pointer table and that it names a struct. *)
Class codegen_util : Type := {
  is_macro_pointer : string -> bool;
  macro_struct_name : string -> string
}.

(** ** What the generator imports from [header_parsing] *)

(** A member of an enum block as [ENUM_DECL] yields it: every attribute
    is a string, empty when the member does not carry it. *)
Record enum_member : Type := EnumMember {
  member_name : string;
  bit_lshift_a : string;
  bit_lshift_b : string;
  member_value : string
}.

Record enum_decl : Type := EnumDecl {
  enum_name : string;
  enum_members : list enum_member
}.

(** An array size: an integer or an identifier. *)
Inductive size_token : Type :=
| SizeInt (n : Z)
| SizeStr (s : string).

(** The [dims] of an x-macro member: a [pyparsing.ParseResults] of
    sizes, or one size. *)
Inductive dims_token : Type :=
| ParseResults (ds : list size_token)
| OneSize (d : size_token).

Record xmacro_member : Type := XMember {
  xmember_name : string;
  xmember_dims : dims_token
}.

Record xmacro : Type := XMacro {
  xmacro_name : string;
  xmacro_members : list xmacro_member
}.

(** A declaration token of [COND_DECL | UNCOND_DECL]: the code tells
    the four kinds apart by which attributes are non-empty. *)
Inductive token : Type :=
| Token (predicate : string) (if_true if_false : list token)
        (typename name value : string).

(** The grammars, each as its [scanString] (the token groups of the
    matching spans, in order), and the table of C type names. *)
Class header_parsing : Type := {
  ENUM_DECL : string -> list (list enum_decl);
  XMACRO : string -> list (list xmacro);
  COND_DECL_or_UNCOND_DECL : string -> list (list token);
  C_TO_CTYPES : dict string
}.

(** ** The generator *)

(** The class of each of the five table objects.  A table is never
    rebound after [__init__], so its class stays what it was then. *)
Record table_classes : Type := mkClasses {
  enums_class : mapping_class;
  consts_class : mapping_class;
  typedefs_class : mapping_class;
  hints_class : mapping_class;
  index_class : mapping_class
}.

(** The classes of a generator made without arguments. *)
Definition default_classes : table_classes :=
  mkClasses UniqueOrderedDict_class UniqueOrderedDict_class UniqueOrderedDict_class
            UniqueOrderedDict_class UniqueOrderedDict_class.

(** The entries of the five tables and the classes of the five
    objects.  The members of an enum are only read once the enum is in
    the table; the fields of a struct are taken to be a plain
    dictionary, as [setdefault(..., {})] makes them. *)
Record BindingGenerator : Type := mkBindingGenerator {
  enums_dict : dict (dict pyval);
  consts_dict : dict pyval;
  typedefs_dict : dict pyval;
  hints_dict : dict pyval;
  index_dict : dict (dict pyval);
  classes : table_classes
}.

(** [x or codegen_util.UniqueOrderedDict()]: [None] and an empty
    mapping are both falsy and give a new [UniqueOrderedDict]; any
    other mapping is kept as it is, with its class. *)
Definition or_new {V} (x : option (mapping_class * dict V)) : mapping_class * dict V :=
  match x with
  | Some (c, e :: d) => (c, e :: d)
  | Some (_, []) | None => (UniqueOrderedDict_class, [])
  end.

Definition __init__
    (enums : option (mapping_class * dict (dict pyval)))
    (consts typedefs hints : option (mapping_class * dict pyval))
    (index : option (mapping_class * dict (dict pyval)))
  : BindingGenerator :=
  {| enums_dict := snd (or_new enums);
     consts_dict := snd (or_new consts);
     typedefs_dict := snd (or_new typedefs);
     hints_dict := snd (or_new hints);
     index_dict := snd (or_new index);
     classes := mkClasses (fst (or_new enums)) (fst (or_new consts))
                          (fst (or_new typedefs)) (fst (or_new hints))
                          (fst (or_new index)) |}.

(** Methods: the generator before, the outcome and the generator after
    (Python keeps what was written before an exception). *)
Definition M (A : Type) : Type := BindingGenerator -> result A * BindingGenerator.

Definition ret {A} (a : A) : M A := fun g => (Ok a, g).

Definition bind {A B} (m : M A) (k : A -> M B) : M B :=
  fun g => match m g with
           | (Ok a, g') => k a g'
           | (Raise e, g') => (Raise e, g')
           end.

Definition lift {A} (r : result A) : M A := fun g => (r, g).

Declare Scope gen_scope.
Delimit Scope gen_scope with gen.
Notation "x <- m ;; k" := (bind m (fun x => k))
  (at level 100, m at next level, right associativity) : gen_scope.
Notation "m ;; k" := (bind m (fun _ => k))
  (at level 100, right associativity) : gen_scope.

(** [for x in l: body(x)] *)
Fixpoint for_each {A} (l : list A) (body : A -> M unit) : M unit :=
  match l with
  | [] => ret tt
  | x :: xs => (body x ;; for_each xs body)%gen
  end.

(** [self.<table>[k] = v] for the four tables the code writes to in
    this way, each by the class of its object. *)
Definition set_enum (k : string) (v : UniqueOrderedDict pyval) : M unit :=
  fun g => match mapping_setitem (enums_class (classes g)) (enums_dict g) k v with
           | Ok d => (Ok tt, mkBindingGenerator d (consts_dict g) (typedefs_dict g)
                               (hints_dict g) (index_dict g) (classes g))
           | Raise e => (Raise e, g)
           end.

Definition set_const (k : string) (v : pyval) : M unit :=
  fun g => match mapping_setitem (consts_class (classes g)) (consts_dict g) k v with
           | Ok d => (Ok tt, mkBindingGenerator (enums_dict g) d (typedefs_dict g)
                               (hints_dict g) (index_dict g) (classes g))
           | Raise e => (Raise e, g)
           end.

Definition set_typedef (k : string) (v : pyval) : M unit :=
  fun g => match mapping_setitem (typedefs_class (classes g)) (typedefs_dict g) k v with
           | Ok d => (Ok tt, mkBindingGenerator (enums_dict g) (consts_dict g) d
                               (hints_dict g) (index_dict g) (classes g))
           | Raise e => (Raise e, g)
           end.

Definition set_hint (k : string) (v : pyval) : M unit :=
  fun g => match mapping_setitem (hints_class (classes g)) (hints_dict g) k v with
           | Ok d => (Ok tt, mkBindingGenerator (enums_dict g) (consts_dict g)
                               (typedefs_dict g) d (index_dict g) (classes g))
           | Raise e => (Raise e, g)
           end.

(** [get_consts_and_enums]: a copy of the constants, then every enum's
    members written over it in table order. *)
Definition get_consts_and_enums (g : BindingGenerator) : dict pyval :=
  fold_left (fun consts_and_enums enum => dict_update consts_and_enums enum)
            (dict_values (enums_dict g)) (consts_dict g).

(** The names bound in the module's namespace: its imports and the
    class.  There is no [import numpy as np]. *)
Definition module_globals : list string :=
  ["os"; "pprint"; "textwrap"; "logging"; "codegen_util"; "header_parsing";
   "pyparsing"; "BindingGenerator"].

(** Reading a global name that is not bound raises [NameError]. *)
Definition load_global (name : string) : result unit :=
  if existsb (String.eqb name) module_globals then Ok tt
  else Raise (NameError name).

Definition int_of (v : pyval) : Z :=
  match v with
  | VInt z => z
  | VBool b => if b then 1 else 0
  | _ => 0
  end.

(** [int(np.prod(sizes))]: the name [np] is looked up first. *)
Definition int_np_prod (sizes : list pyval) : result pyval :=
  (_ <- load_global "np" ;;
   Ok (VInt (fold_right Z.mul 1 (map int_of sizes))))%res.

(** [resolve_size]; [depth] bounds the nesting of the recursive calls. *)
Fixpoint resolve_size_rec (depth : nat) (g : BindingGenerator)
    (old_size : size_token) : result pyval :=
  match old_size with
  | SizeInt n => Ok (VInt n)
  | SizeStr s =>
      if str_contains "*" s then
        match depth with
        | O => Raise RecursionError
        | S depth' =>
            (sizes <- mapR (fun part => resolve_size_rec depth' g (SizeStr part))
                           (str_split "*" s) ;;
             if forallb isinstance_int sizes then int_np_prod sizes
             else Ok (VTuple sizes))%res
        end
      else
        let size := recursive_dict_lookup (VStr s) (get_consts_and_enums g) in
        Ok (py_or (try_coerce_to_num size) (VStr s))
  end.

(** A part of a product has no ["*"] left, so one nested call is all
    there ever is. *)
Definition resolve_size (g : BindingGenerator) (old_size : size_token)
  : result pyval :=
  resolve_size_rec 1 g old_size.

Definition get_shape_tuple (g : BindingGenerator) (old_size : dims_token)
    (squeeze : bool) : result (list pyval) :=
  (shape <- match old_size with
            | ParseResults ds => mapR (resolve_size g) ds
            | OneSize d => (r <- resolve_size g d ;; Ok [r])
            end ;;
   Ok (List.filter (fun d => negb squeeze || ne_one d) shape))%res.

(** [new == old] where [old] is a string. *)
Definition eq_str (new : pyval) (old : string) : bool :=
  match new with
  | VStr s => String.eqb s old
  | _ => false
  end.

(** [C_TO_CTYPES.get(new, new)] *)
Definition ctypes_get `{header_parsing} (new : pyval) : pyval :=
  match new with
  | VStr s => match dict_get C_TO_CTYPES s with
              | Some t => VStr t
              | None => new
              end
  | _ => new
  end.

(** [resolve_typename]: the name found and what [logging.warning] was
    given. *)
Definition resolve_typename `{header_parsing} (g : BindingGenerator)
    (old_ctypes_typename : string) : pyval * list string :=
  let new_ctypes_typename :=
    recursive_dict_lookup (VStr old_ctypes_typename) (typedefs_dict g) in
  let new_ctypes_typename := ctypes_get new_ctypes_typename in
  (new_ctypes_typename,
   if eq_str new_ctypes_typename old_ctypes_typename
   then ["Could not resolve typename '" ++ old_ctypes_typename ++ "'"]%string
   else []).

(** The value under [k] changed in place (the inner dictionary of an
    index entry is one object, written through the reference that
    [setdefault] returns). *)
Fixpoint dict_modify {V} (d : dict V) (k : string) (f : V -> V) : dict V :=
  match d with
  | [] => []
  | (k', v) :: rest =>
      if String.eqb k' k then (k', f v) :: rest
      else (k', v) :: dict_modify rest k f
  end.

(** [self.index_dict.setdefault(struct_name, {})[name] = shape] *)
Definition index_add (struct_name name : string) (shape : pyval) : M unit :=
  fun g => match mapping_setdefault (index_class (classes g)) (index_dict g)
                                    struct_name [] with
           | Ok (_, d) =>
               (Ok tt,
                mkBindingGenerator (enums_dict g) (consts_dict g) (typedefs_dict g)
                  (hints_dict g)
                  (dict_modify d struct_name (fun fields => dict_setitem fields name shape))
                  (classes g))
           | Raise e => (Raise e, g)
           end.

Section Methods.
Context `{header_parsing} `{codegen_util}.

(** The body of the innermost loop of [parse_hints]. *)
Definition parse_hint (x : xmacro) (member : xmacro_member) : M unit :=
  (shape <- (fun g => (get_shape_tuple g (xmember_dims member) true, g)) ;;
   set_hint (xmember_name member) (VTuple shape) ;;
   if is_macro_pointer (xmacro_name x)
   then index_add (macro_struct_name (xmacro_name x)) (xmember_name member)
                  (VTuple shape)
   else ret tt)%gen.

Definition parse_hints_tokens (groups : list (list xmacro)) : M unit :=
  for_each groups (fun tokens =>
    for_each tokens (fun x =>
      for_each (xmacro_members x) (parse_hint x))).

Definition parse_hints (xmacro_src : string) : M unit :=
  parse_hints_tokens (XMACRO xmacro_src).

(** The three-way choice of [parse_enums] for one member; [value] is
    the running value. *)
Definition next_enum_value (value : Z) (member : enum_member) : result Z :=
  if str_truthy (bit_lshift_a member) then
    (a <- py_int (bit_lshift_a member) ;;
     b <- py_int (bit_lshift_b member) ;;
     py_lshift a b)%res
  else if str_truthy (member_value member) then py_int (member_value member)
  else Ok (value + 1).

(** The loop over [enum.members], from [members] and [value] so far. *)
Fixpoint enum_members_loop (members : UniqueOrderedDict pyval) (value : Z)
    (l : list enum_member) : result (UniqueOrderedDict pyval) :=
  match l with
  | [] => Ok members
  | member :: rest =>
      (value' <- next_enum_value value member ;;
       members' <- UniqueOrderedDict_setitem members (member_name member) (VInt value') ;;
       enum_members_loop members' value' rest)%res
  end.

Definition parse_enum (enum : enum_decl) : M unit :=
  (members <- lift (enum_members_loop [] 0 (enum_members enum)) ;;
   set_enum (enum_name enum) members)%gen.

Definition parse_enums_tokens (groups : list (list enum_decl)) : M unit :=
  for_each groups (fun tokens => for_each tokens parse_enum).

Definition parse_enums (src : string) : M unit :=
  parse_enums_tokens (ENUM_DECL src).

(** [condition = self.get_consts_and_enums().get(predicate)] and its
    truth. *)
Definition condition (g : BindingGenerator) (predicate : string) : bool :=
  match dict_get (get_consts_and_enums g) predicate with
  | Some v => truthy v
  | None => false
  end.

(** The body of the loop of [_recurse_into_conditionals]. *)
Fixpoint recurse_token (t : token) : M unit :=
  let recurse :=
    fix recurse (tokens : list token) : M unit :=
      match tokens with
      | [] => ret tt
      | t' :: rest => (recurse_token t' ;; recurse rest)%gen
      end in
  match t with
  | Token predicate if_true if_false typename name value =>
      if str_truthy predicate then
        fun g => if condition g predicate then recurse if_true g
                 else recurse if_false g
      else if str_truthy typename then set_typedef name (VStr typename)
      else if str_truthy value then
        match try_coerce_to_num (VStr value) with
        | VStr _ => ret tt
        | v => set_const name v
        end
      else set_const name (VBool true)
  end.

Definition _recurse_into_conditionals (tokens : list token) : M unit :=
  for_each tokens recurse_token.

Definition parse_consts_typedefs (src : string) : M unit :=
  for_each (COND_DECL_or_UNCOND_DECL src) _recurse_into_conditionals.

End Methods.

(** ** Definitions used to state the properties *)

(** What [resolve_size] does with a token that is no product. *)
Definition resolve_name (g : BindingGenerator) (s : string) : pyval :=
  py_or (try_coerce_to_num
           (recursive_dict_lookup (VStr s) (get_consts_and_enums g)))
        (VStr s).

(** The sizes a dimension specifier holds. *)
Definition dims_list (old_size : dims_token) : list size_token :=
  match old_size with
  | ParseResults ds => ds
  | OneSize d => [d]
  end.

(** The names a token can declare: those of its leaves, at any depth
    and in either branch. *)
Fixpoint token_names (t : token) : list string :=
  let names :=
    fix names (tokens : list token) : list string :=
      match tokens with
      | [] => []
      | t' :: rest => token_names t' ++ names rest
      end in
  match t with
  | Token predicate if_true if_false typename name value =>
      if str_truthy predicate then names if_true ++ names if_false
      else [name]
  end.

Definition declared_names (tokens : list token) : list string :=
  flat_map token_names tokens.

(** From [g] to [g'] nothing but constants and typedefs named in
    [names] has been added, and the other three tables are as they
    were. *)
Definition only_declares (names : list string) (g g' : BindingGenerator) : Prop :=
  enums_dict g' = enums_dict g /\
  hints_dict g' = hints_dict g /\
  index_dict g' = index_dict g /\
  (forall k, k ∈ dict_keys (consts_dict g') ->
             k ∈ dict_keys (consts_dict g) \/ k ∈ names) /\
  (forall k, k ∈ dict_keys (typedefs_dict g') ->
             k ∈ dict_keys (typedefs_dict g) \/ k ∈ names).

Definition could_not_resolve (old : string) : list string :=
  ["Could not resolve typename '" ++ old ++ "'"]%string.

(** The index after [setdefault(struct_name, {})]. *)
Definition ensure_struct (index : dict (dict pyval)) (struct_name : string)
  : dict (dict pyval) :=
  match dict_get index struct_name with
  | Some _ => index
  | None => index ++ [(struct_name, [])]
  end.

(** The index after [setdefault(struct_name, {})[name] = shape]. *)
Definition add_field (struct_name name : string) (shape : pyval)
    (index : dict (dict pyval)) : dict (dict pyval) :=
  dict_modify (ensure_struct index struct_name) struct_name
              (fun fields => dict_setitem fields name shape).

(** The generator after the members [entries] (name and shape) of
    pointer tables for [struct_name] have been recorded. *)
Definition record_hints (struct_name : string)
    (entries : list (string * list pyval)) (g : BindingGenerator)
  : BindingGenerator :=
  mkBindingGenerator (enums_dict g) (consts_dict g) (typedefs_dict g)
    (hints_dict g ++ map (fun e => (fst e, VTuple (snd e))) entries)
    (fold_left (fun index e => add_field struct_name (fst e) (VTuple (snd e)) index)
               entries (index_dict g))
    (classes g).

(** From [g] to [g'] only the constants and the typedefs have been
    written to.  The names that were there are there still, in their
    places, and a table that is a [UniqueOrderedDict] has only been
    appended to; the other three tables and the classes are as they
    were. *)
Definition declarations_appended (g g' : BindingGenerator) : Prop :=
  enums_dict g' = enums_dict g /\
  hints_dict g' = hints_dict g /\
  index_dict g' = index_dict g /\
  classes g' = classes g /\
  dict_keys (consts_dict g) `prefix_of` dict_keys (consts_dict g') /\
  dict_keys (typedefs_dict g) `prefix_of` dict_keys (typedefs_dict g') /\
  (consts_class (classes g) = UniqueOrderedDict_class ->
   consts_dict g `prefix_of` consts_dict g') /\
  (typedefs_class (classes g) = UniqueOrderedDict_class ->
   typedefs_dict g `prefix_of` typedefs_dict g').

(** What the generator [g] must hold once the declaration [t] has been
    recorded: a typedef has its name in the typedefs table, a flag or
    an integer constant has its name in the constants table, and a
    table that is a [UniqueOrderedDict] still holds under that name
    what the declaration says (in a plain dictionary a later
    declaration of the name may have replaced it).  A conditional
    block and a value that is no integer ask for nothing. *)
Definition recorded (t : token) (g : BindingGenerator) : Prop :=
  match t with
  | Token predicate _ _ typename name value =>
      if str_truthy predicate then True
      else if str_truthy typename then
        name ∈ dict_keys (typedefs_dict g) /\
        (typedefs_class (classes g) = UniqueOrderedDict_class ->
         dict_get (typedefs_dict g) name = Some (VStr typename))
      else if str_truthy value then
        match py_int value with
        | Ok n =>
            name ∈ dict_keys (consts_dict g) /\
            (consts_class (classes g) = UniqueOrderedDict_class ->
             dict_get (consts_dict g) name = Some (VInt n))
        | Raise _ => True
        end
      else
        name ∈ dict_keys (consts_dict g) /\
        (consts_class (classes g) = UniqueOrderedDict_class ->
         dict_get (consts_dict g) name = Some (VBool true))
  end.

(** ** The tables as Python objects

    [get_consts_and_enums] works on objects: [self.consts_dict.copy()]
    makes a new dictionary and [update] writes into that one.  Here the
    dictionaries live in a heap and the generator holds references, so
    that what the method writes can be told apart from what it reads. *)
Module Store.

Abbreviation ref := positive.

(** A dictionary of values (the constants, the members of one enum, a
    view), or the enums table, whose values are member dictionaries. *)
Inductive object : Type :=
| Values (entries : dict pyval)
| Enums (entries : dict ref).

Abbreviation heap := (gmap positive object).

Record generator : Type := Generator {
  consts_ref : ref;
  enums_ref : ref
}.

Definition read_values (h : heap) (r : ref) : option (dict pyval) :=
  match h !! r with
  | Some (Values d) => Some d
  | _ => None
  end.

Definition read_enums (h : heap) (r : ref) : option (dict ref) :=
  match h !! r with
  | Some (Enums d) => Some d
  | _ => None
  end.

(** [for enum in ...: consts_and_enums.update(enum)], writing to the
    object at [view]. *)
Fixpoint update_each (view : ref) (enums : list ref) (h : heap) : option heap :=
  match enums with
  | [] => Some h
  | enum :: rest =>
      match read_values h enum, read_values h view with
      | Some members, Some entries =>
          update_each view rest (<[view := Values (dict_update entries members)]> h)
      | _, _ => None
      end
  end.

(** The method on the heap: the reference it returns and the heap
    after it.  [None] stands for a heap in which the generator's
    references do not lead to dictionaries. *)
Definition run_get_consts_and_enums (self : generator) (h : heap)
  : option (ref * heap) :=
  match read_values h (consts_ref self) with
  | Some consts =>
      let view := fresh (dom h) in
      let h1 := <[view := Values consts]> h in
      match read_enums h1 (enums_ref self) with
      | Some enums =>
          match update_each view (dict_values enums) h1 with
          | Some h2 => Some (view, h2)
          | None => None
          end
      | None => None
      end
  | None => None
  end.

(** The heap holds the constants and the enums of [g] behind the
    generator's references. *)
Definition represents (h : heap) (self : generator) (g : BindingGenerator) : Prop :=
  read_values h (consts_ref self) = Some (consts_dict g) /\
  exists enums,
    read_enums h (enums_ref self) = Some enums /\
    Forall2 (fun er em => fst er = fst em /\
                          read_values h (snd er) = Some (snd em))
            enums (enums_dict g).

End Store.

(** ** Sessions and grammars of the examples *)

(** Sessions for the examples: constants [A = 2] and [B = 3]; [A = 2]
    alone; a constant defined as [0]. *)
Definition session_A_B : BindingGenerator :=
  __init__ None (Some (dict_class, [("A", VInt 2); ("B", VInt 3)])) None None None.

Definition session_A : BindingGenerator :=
  __init__ None (Some (dict_class, [("A", VInt 2)])) None None None.

Definition session_zero : BindingGenerator :=
  __init__ None (Some (dict_class, [("mjNONE", VInt 0); ("nq", VInt 7)])) None None None.

(** The block [enum E { X, Y=10, Z };] as [ENUM_DECL] yields it. *)
Definition enum_E : enum_decl :=
  EnumDecl "E" [EnumMember "X" "" "" ""; EnumMember "Y" "" "" "10";
                EnumMember "Z" "" "" ""].

(** A grammar that knows this one header. *)
Definition header_E : header_parsing :=
  {| ENUM_DECL := fun src =>
       if String.eqb src "enum E { X, Y=10, Z };" then [[enum_E]] else [];
     XMACRO := fun _ => [];
     COND_DECL_or_UNCOND_DECL := fun _ => [];
     C_TO_CTYPES := [] |}.

(** A conditional on [FOO], with a typedef in [if_true] and a constant
    in [if_false]. *)
Definition cond_FOO : token :=
  Token "FOO" [Token "" [] [] "double" "mjtNum" ""]
              [Token "" [] [] "" "mjMINVAL" "5"] "" "" "".

(** Typedefs [A -> B] and [B -> int], and [int -> i32] in the table of
    C type names. *)
Definition session_typedefs : BindingGenerator :=
  __init__ None None (Some (dict_class, [("A", VStr "B"); ("B", VStr "int")])) None None.

Definition header_i32 : header_parsing :=
  {| ENUM_DECL := fun _ => [];
     XMACRO := fun _ => [];
     COND_DECL_or_UNCOND_DECL := fun _ => [];
     C_TO_CTYPES := [("int", "i32")] |}.

(** A constant and an enum member both named [mjMAXVAL]. *)
Definition session_shadow : BindingGenerator :=
  __init__ (Some (dict_class, [("mjtEnum", [("mjMAXVAL", VInt 9); ("mjOTHER", VInt 10)])]))
           (Some (dict_class, [("mjMAXVAL", VInt 1); ("nq", VInt 7)])) None None None.

Definition heap_shadow : gmap positive Store.object :=
  <[1%positive := Store.Values [("mjMAXVAL", VInt 1); ("nq", VInt 7)]]>
    (<[2%positive := Store.Enums [("mjtEnum", 3%positive)]]>
       (<[3%positive := Store.Values [("mjMAXVAL", VInt 9); ("mjOTHER", VInt 10)]]> ∅)).

(** A session whose tables all have the key [dup], each table passed
    as a [UniqueOrderedDict]; and the same tables passed as plain
    dictionaries. *)
Definition session_dup : BindingGenerator :=
  __init__ (Some (UniqueOrderedDict_class, [("dup", [("a", VInt 0)])]))
           (Some (UniqueOrderedDict_class, [("dup", VInt 1)]))
           (Some (UniqueOrderedDict_class, [("dup", VStr "int")]))
           (Some (UniqueOrderedDict_class, [("dup", VTuple [VInt 3])]))
           (Some (UniqueOrderedDict_class, [("dup", [("qpos", VTuple [VInt 7])])])).

Definition session_dup_plain : BindingGenerator :=
  __init__ (Some (dict_class, [("dup", [("a", VInt 0)])]))
           (Some (dict_class, [("dup", VInt 1)]))
           (Some (dict_class, [("dup", VStr "int")]))
           (Some (dict_class, [("dup", VTuple [VInt 3])]))
           (Some (dict_class, [("dup", [("qpos", VTuple [VInt 7])])])).

(** A member [dup] of a table that is no pointer table. *)
Definition xmember_dup : xmacro_member := XMember "dup" (OneSize (SizeStr "3")).

(** Two pointer tables of the struct [mjdata]. *)
Definition xmacro_pointers : xmacro :=
  XMacro "MJDATA_POINTERS" [XMember "qpos" (OneSize (SizeStr "nq"))].

Definition xmacro_arena_pointers : xmacro :=
  XMacro "MJDATA_ARENA_POINTERS"
         [XMember "contact" (ParseResults [SizeStr "ncon"; SizeStr "1"])].

Definition header_mjdata : header_parsing :=
  {| ENUM_DECL := fun _ => [];
     XMACRO := fun _ => [[xmacro_pointers]; [xmacro_arena_pointers]];
     COND_DECL_or_UNCOND_DECL := fun _ => [];
     C_TO_CTYPES := [] |}.

Definition macros_mjdata : codegen_util :=
  {| is_macro_pointer := fun name =>
       String.eqb name "MJDATA_POINTERS" || String.eqb name "MJDATA_ARENA_POINTERS";
     macro_struct_name := fun _ => "mjdata" |}.

(** A grammar that yields the one table [MJDATA_POINTERS] with the
    member [qpos] of dimension [nq]. *)
Definition header_qpos : header_parsing :=
  {| ENUM_DECL := fun _ => [];
     XMACRO := fun _ => [[xmacro_pointers]];
     COND_DECL_or_UNCOND_DECL := fun _ => [];
     C_TO_CTYPES := [] |}.

(** A table that is no pointer table, beside a pointer table. *)
Definition xmacro_scalars : xmacro :=
  XMacro "MJDATA_SCALAR" [XMember "time" (OneSize (SizeStr "1"))].

Definition header_scalars : header_parsing :=
  {| ENUM_DECL := fun _ => [];
     XMACRO := fun _ => [[xmacro_scalars]];
     COND_DECL_or_UNCOND_DECL := fun _ => [];
     C_TO_CTYPES := [("double", "c_double")] |}.

(** [enum mjtDisableBit { mjDSBL_CONSTRAINT = 1<<0, mjDSBL_EQUALITY = 1<<1,
    mjNDISABLE }] *)
Definition enum_disable : enum_decl :=
  EnumDecl "mjtDisableBit"
    [EnumMember "mjDSBL_CONSTRAINT" "1" "0" "";
     EnumMember "mjDSBL_EQUALITY" "1" "1" "";
     EnumMember "mjNDISABLE" "" "" ""].

(** * Properties *)

(** ** Dictionaries *)

Section DictFacts.
Context {V : Type}.
Implicit Types (d e : dict V) (k : string) (v : V).

Lemma dict_get_app d e k :
  dict_get (d ++ e) k =
  match dict_get d k with Some v => Some v | None => dict_get e k end.
Proof.
  induction d as [|[k' v'] d IH]; simpl; [done|].
  by destruct (String.eqb k' k).
Qed.

Lemma dict_get_setitem_eq d k v : dict_get (dict_setitem d k v) k = Some v.
Proof.
  induction d as [|[k' v'] d IH]; simpl.
  - by rewrite String.eqb_refl.
  - destruct (String.eqb k' k) eqn:E; simpl; by rewrite E.
Qed.

Lemma dict_get_setitem_ne d k k' v :
  k <> k' -> dict_get (dict_setitem d k v) k' = dict_get d k'.
Proof.
  intros Hne. induction d as [|[k0 v0] d IH]; simpl.
  - by apply String.eqb_neq in Hne as ->.
  - destruct (String.eqb k0 k) eqn:E; simpl; [|by rewrite IH].
    apply String.eqb_eq in E as ->.
    by apply String.eqb_neq in Hne as ->.
Qed.

Lemma dict_keys_setitem_has d k v :
  dict_has d k = true -> dict_keys (dict_setitem d k v) = dict_keys d.
Proof.
  unfold dict_has. induction d as [|[k0 v0] d IH]; simpl; [done|].
  destruct (String.eqb k0 k) eqn:E; simpl; [done|].
  intros Hk. by rewrite IH.
Qed.

Lemma dict_setitem_fresh d k v :
  dict_get d k = None -> dict_setitem d k v = d ++ [(k, v)].
Proof.
  induction d as [|[k0 v0] d IH]; simpl; [done|].
  destruct (String.eqb k0 k); [done|]. intros Hk. by rewrite IH.
Qed.

Lemma dict_get_None_keys d k : dict_get d k = None <-> k ∉ dict_keys d.
Proof.
  induction d as [|[k0 v0] d IH]; simpl.
  - split; [intros _; apply not_elem_of_nil | done].
  - rewrite not_elem_of_cons. destruct (String.eqb k0 k) eqn:E.
    + apply String.eqb_eq in E as ->. split; [done | by intros []].
    + apply String.eqb_neq in E. rewrite IH.
      split; [intros Hk; split; [congruence | done] | by intros [_ Hk]].
Qed.

Lemma dict_get_Some_keys d k v : dict_get d k = Some v -> k ∈ dict_keys d.
Proof.
  intros Hk. destruct (decide (k ∈ dict_keys d)) as [|Hn]; [done|].
  apply dict_get_None_keys in Hn. congruence.
Qed.

(** With unique keys, the last entry for a key is the first. *)
Lemma dict_get_rev d k :
  NoDup (dict_keys d) -> dict_get (rev d) k = dict_get d k.
Proof.
  induction d as [|[k0 v0] d IH]; simpl; [done|].
  rewrite NoDup_cons. intros [Hfresh Hnd].
  rewrite dict_get_app, IH by done. simpl.
  destruct (String.eqb k0 k) eqn:E; [|by destruct (dict_get d k)].
  apply String.eqb_eq in E as <-.
  by apply dict_get_None_keys in Hfresh as ->.
Qed.

(** [update] makes the entries of [e] win, the last one first. *)
Lemma dict_get_update d e k :
  dict_get (dict_update d e) k =
  match dict_get (rev e) k with Some v => Some v | None => dict_get d k end.
Proof.
  unfold dict_update. revert d.
  induction e as [|[k0 v0] e IH]; intros d; simpl; [done|].
  rewrite IH, dict_get_app. destruct (dict_get (rev e) k); [done|]. simpl.
  destruct (String.eqb k0 k) eqn:E.
  - apply String.eqb_eq in E as ->. apply dict_get_setitem_eq.
  - apply String.eqb_neq in E. by apply dict_get_setitem_ne.
Qed.

Lemma dict_get_modify_eq d k (f : V -> V) :
  dict_get (dict_modify d k f) k = f <$> dict_get d k.
Proof.
  induction d as [|[k0 v0] d IH]; simpl; [done|].
  destruct (String.eqb k0 k) eqn:E; simpl; by rewrite E.
Qed.

Lemma dict_get_modify_ne d k k' (f : V -> V) :
  k <> k' -> dict_get (dict_modify d k f) k' = dict_get d k'.
Proof.
  intros Hne. induction d as [|[k0 v0] d IH]; simpl; [done|].
  destruct (String.eqb k0 k) eqn:E; simpl; [|by rewrite IH].
  apply String.eqb_eq in E as ->. by apply String.eqb_neq in Hne as ->.
Qed.

Lemma dict_keys_modify d k (f : V -> V) :
  dict_keys (dict_modify d k f) = dict_keys d.
Proof.
  induction d as [|[k0 v0] d IH]; simpl; [done|].
  destruct (String.eqb k0 k); simpl; by rewrite ?IH.
Qed.
End DictFacts.

(** ** Writing to a mapping of either class *)

Lemma mapping_setitem_fresh {V} c (d : dict V) k v :
  dict_get d k = None -> mapping_setitem c d k v = Ok (d ++ [(k, v)]).
Proof.
  intros Hk. destruct c; simpl.
  - by rewrite dict_setitem_fresh.
  - unfold UniqueOrderedDict_setitem, dict_has. by rewrite Hk.
Qed.

Lemma mapping_setitem_get {V} c (d d' : dict V) k v :
  mapping_setitem c d k v = Ok d' -> dict_get d' k = Some v.
Proof.
  destruct c; simpl.
  - intros [= <-]. apply dict_get_setitem_eq.
  - unfold UniqueOrderedDict_setitem, dict_has.
    destruct (dict_get d k) eqn:Hk; [done|]. intros [= <-].
    rewrite dict_get_app, Hk. simpl. by rewrite String.eqb_refl.
Qed.

Lemma dict_keys_setitem_prefix {V} (d : dict V) k v :
  dict_keys d `prefix_of` dict_keys (dict_setitem d k v).
Proof.
  destruct (dict_get d k) eqn:Hk.
  - rewrite dict_keys_setitem_has; [done|]. unfold dict_has. by rewrite Hk.
  - rewrite dict_setitem_fresh by done. unfold dict_keys. rewrite map_app.
    by apply prefix_app_r.
Qed.

(** A write keeps the keys that were there, in their places, and adds
    at most the key written. *)
Lemma mapping_setitem_keys {V} c (d d' : dict V) k v :
  mapping_setitem c d k v = Ok d' ->
  dict_keys d `prefix_of` dict_keys d' /\
  (forall k', k' ∈ dict_keys d' -> k' ∈ dict_keys d \/ k' = k).
Proof.
  destruct c; simpl.
  - intros [= <-]. split; [apply dict_keys_setitem_prefix|].
    intros k'. destruct (dict_get d k) eqn:Hk.
    + rewrite dict_keys_setitem_has; [by left|]. unfold dict_has. by rewrite Hk.
    + rewrite dict_setitem_fresh by done. unfold dict_keys.
      rewrite map_app, elem_of_app. simpl. rewrite list_elem_of_singleton. tauto.
  - unfold UniqueOrderedDict_setitem. destruct (dict_has d k); [done|].
    intros [= <-]. unfold dict_keys. rewrite map_app. split.
    + by apply prefix_app_r.
    + intros k'. rewrite elem_of_app. simpl. rewrite list_elem_of_singleton. tauto.
Qed.

(** On a [UniqueOrderedDict] a write that returns has appended. *)
Lemma mapping_setitem_unique {V} (d d' : dict V) k v :
  mapping_setitem UniqueOrderedDict_class d k v = Ok d' ->
  dict_get d k = None /\ d' = d ++ [(k, v)].
Proof.
  simpl. unfold UniqueOrderedDict_setitem, dict_has.
  destruct (dict_get d k); [done|]. by intros [= <-].
Qed.

(** A plain dictionary takes every write. *)
Lemma mapping_setitem_plain {V} (d : dict V) k v :
  mapping_setitem dict_class d k v = Ok (dict_setitem d k v).
Proof. reflexivity. Qed.

(** ** Splitting at the product sign *)

Lemma str_split_nonempty c s : str_split c s <> [].
Proof.
  destruct s as [|a s]; simpl; [done|].
  destruct (Ascii.eqb a c); [done|]. by destruct (str_split c s).
Qed.

Lemma str_split_parts c s : Forall (fun p => str_contains c p = false) (str_split c s).
Proof.
  induction s as [|a s IH]; simpl.
  - by constructor.
  - destruct (Ascii.eqb a c) eqn:E.
    + by constructor.
    + destruct (str_split c s) as [|p ps]; simpl.
      * constructor; [simpl; by rewrite E | constructor].
      * apply Forall_cons in IH as [Hp Hps].
        constructor; [simpl; by rewrite E | done].
Qed.

(** ** [resolve_size] *)

Lemma resolve_size_rec_name depth g s :
  str_contains "*" s = false ->
  resolve_size_rec depth g (SizeStr s) = Ok (resolve_name g s).
Proof. intros Hs. destruct depth; simpl; by rewrite Hs. Qed.

(** An integer size is returned as it is. *)
Theorem resolve_size_int g n : resolve_size g (SizeInt n) = Ok (VInt n).
Proof. reflexivity. Qed.

Lemma mapR_ext_Forall {A B} (P : A -> Prop) (f f' : A -> result B) l :
  (forall x, P x -> f x = f' x) -> Forall P l -> mapR f l = mapR f' l.
Proof.
  intros Hf. induction 1 as [|x l Hx _ IH]; simpl; [done|].
  by rewrite (Hf x Hx), IH.
Qed.

Lemma mapR_total {A B} (f : A -> B) l : mapR (fun x => Ok (f x)) l = Ok (map f l).
Proof. induction l as [|x l IH]; simpl; [done|]. by rewrite IH. Qed.

(** The factors of a product always resolve, each as a name. *)
Lemma resolve_parts depth g s :
  mapR (fun part => resolve_size_rec depth g (SizeStr part)) (str_split "*" s)
  = Ok (map (resolve_name g) (str_split "*" s)).
Proof.
  rewrite <- mapR_total.
  apply (mapR_ext_Forall (fun p => str_contains "*" p = false)).
  - intros p Hp. by apply resolve_size_rec_name.
  - apply str_split_parts.
Qed.

(** The unfolding of [resolve_size] on a product, at any depth that
    allows one nested call. *)
Lemma resolve_size_rec_product depth g s :
  str_contains "*" s = true ->
  resolve_size_rec (S depth) g (SizeStr s) =
  let sizes := map (resolve_name g) (str_split "*" s) in
  if forallb isinstance_int sizes then int_np_prod sizes else Ok (VTuple sizes).
Proof. intros Hs. simpl. rewrite Hs. by rewrite resolve_parts. Qed.

(** One nested call suffices: a deeper bound changes nothing, and the
    bound is never hit. *)
Lemma resolve_size_rec_depth depth g old_size :
  resolve_size_rec (S depth) g old_size = resolve_size g old_size.
Proof.
  unfold resolve_size. destruct old_size as [n|s]; [done|].
  destruct (str_contains "*" s) eqn:Hs.
  - by rewrite !resolve_size_rec_product.
  - by rewrite !resolve_size_rec_name.
Qed.

Lemma int_np_prod_raises sizes : int_np_prod sizes = Raise (NameError "np").
Proof. reflexivity. Qed.

Lemma resolve_size_no_recursion_error g old_size :
  resolve_size g old_size <> Raise RecursionError.
Proof.
  unfold resolve_size. destruct old_size as [n|s]; [done|].
  destruct (str_contains "*" s) eqn:Hs.
  - rewrite resolve_size_rec_product by done. simpl.
    destruct (forallb _ _); [by rewrite int_np_prod_raises | done].
  - by rewrite resolve_size_rec_name.
Qed.

Lemma try_coerce_to_num_not_bool v b : try_coerce_to_num v <> VBool b.
Proof. destruct v as [| | |s|]; simpl; try done. by destruct (py_int s). Qed.

Lemma resolve_name_not_bool g s b : resolve_name g s <> VBool b.
Proof.
  unfold resolve_name, py_or.
  destruct (truthy _); [apply try_coerce_to_num_not_bool | done].
Qed.

(** No size ever resolves to a boolean. *)
Lemma resolve_size_not_bool g old_size d b :
  resolve_size g old_size = Ok d -> d <> VBool b.
Proof.
  unfold resolve_size. destruct old_size as [n|s]; [by intros [= <-]|].
  destruct (str_contains "*" s) eqn:Hs.
  - rewrite resolve_size_rec_product by done. simpl.
    destruct (forallb _ _); [by rewrite int_np_prod_raises | by intros [= <-]].
  - rewrite resolve_size_rec_name by done. intros [= <-].
    apply resolve_name_not_bool.
Qed.

Lemma resolve_size_part g s part :
  part ∈ str_split "*" s ->
  resolve_size g (SizeStr part) = Ok (resolve_name g part).
Proof.
  intros Hin. unfold resolve_size. apply resolve_size_rec_name.
  pose proof (str_split_parts "*" s) as Hparts.
  rewrite Forall_forall in Hparts. by apply Hparts.
Qed.

(** C2, as the code has it: a product whose factors all resolve to
    integers does not return their product.  [resolve_size] reaches
    [int(np.prod(sizes))], the module binds no name [np], and the call
    ends in [NameError]. *)
Theorem resolve_size_integer_product_raises g s :
  str_contains "*" s = true ->
  Forall (fun part => exists n, resolve_size g (SizeStr part) = Ok (VInt n))
         (str_split "*" s) ->
  resolve_size g (SizeStr s) = Raise (NameError "np").
Proof.
  intros Hs Hparts. unfold resolve_size.
  rewrite resolve_size_rec_product by done. simpl.
  replace (forallb isinstance_int (map (resolve_name g) (str_split "*" s)))
    with true; [done|].
  symmetry. rewrite forallb_forall. intros d Hd.
  apply in_map_iff in Hd as (part & <- & Hin).
  rewrite Forall_forall in Hparts.
  apply list_elem_of_In in Hin.
  destruct (Hparts part Hin) as [n Hn].
  rewrite (resolve_size_part g s part Hin) in Hn. by injection Hn as ->.
Qed.

(** [resolve_size("A*B")] with [A = 2] and [B = 3]. *)
Lemma resolve_size_A_times_B_raises :
  resolve_size session_A_B (SizeStr "A*B") = Raise (NameError "np").
Proof.
  apply resolve_size_integer_product_raises.
  - reflexivity.
  - repeat constructor; eexists; reflexivity.
Defined.



(** The tuple itself: [(2, "B")]. *)
Example resolve_size_A_times_unknown_value :
  resolve_size session_A (SizeStr "A*B") = Ok (VTuple [VInt 2; VStr "B"]).
Proof. reflexivity. Qed.

(** C9: a name that is not a product and whose lookup coerces to the
    integer [0] resolves to the name itself: [0] is falsy, so the
    [or old_size] fall-back takes over. *)
Theorem resolve_size_zero_is_symbolic g s :
  str_contains "*" s = false ->
  try_coerce_to_num (recursive_dict_lookup (VStr s) (get_consts_and_enums g))
  = VInt 0 ->
  resolve_size g (SizeStr s) = Ok (VStr s).
Proof.
  intros Hs Hzero. unfold resolve_size.
  rewrite resolve_size_rec_name by done.
  unfold resolve_name. by rewrite Hzero.
Qed.

Lemma resolve_size_zero_constant :
  resolve_size session_zero (SizeStr "mjNONE") = Ok (VStr "mjNONE").
Proof.
  apply resolve_size_zero_is_symbolic; reflexivity.
Defined.

(** ** [get_shape_tuple] *)

Lemma mapR_Ok_elem {A B} (f : A -> result B) l ys y :
  mapR f l = Ok ys -> y ∈ ys -> exists x, x ∈ l /\ f x = Ok y.
Proof.
  revert ys. induction l as [|x l IH]; intros ys; simpl.
  - intros [= <-] Hy. by apply elem_of_nil in Hy.
  - destruct (f x) as [y0|] eqn:Hx; simpl; [|done].
    destruct (mapR f l) as [ys0|] eqn:Hl; simpl; [|done].
    intros [= <-] Hy. apply elem_of_cons in Hy as [->|Hy].
    + exists x. split; [left | done].
    + destruct (IH ys0 eq_refl Hy) as (x' & Hx' & Hfx').
      exists x'. split; [by right | done].
Qed.

Lemma get_shape_tuple_unfold g old_size squeeze shape :
  mapR (resolve_size g) (dims_list old_size) = Ok shape ->
  get_shape_tuple g old_size squeeze
  = Ok (List.filter (fun d => negb squeeze || ne_one d) shape).
Proof.
  unfold get_shape_tuple. destruct old_size as [ds|d]; simpl.
  - by intros ->.
  - destruct (resolve_size g d) as [r|]; simpl; [|done]. by intros [= <-].
Qed.

(** C8: once the dimensions of a specifier have resolved to [shape],
    squeezing keeps, in order, the dimensions for which [d != 1], and
    those dropped are exactly the ones equal to the integer [1];
    without squeezing nothing is dropped. *)
Theorem get_shape_tuple_squeeze g old_size shape :
  mapR (resolve_size g) (dims_list old_size) = Ok shape ->
  get_shape_tuple g old_size true = Ok (List.filter ne_one shape) /\
  (forall d, d ∈ shape -> ne_one d = false <-> d = VInt 1) /\
  get_shape_tuple g old_size false = Ok shape.
Proof.
  intros Hshape. split; [|split].
  - by rewrite (get_shape_tuple_unfold g old_size true shape).
  - intros d Hd.
    destruct (mapR_Ok_elem _ _ _ _ Hshape Hd) as (x & _ & Hx).
    pose proof (resolve_size_not_bool g x d) as Hnb.
    split; [|by intros ->].
    destruct d as [|b|z| |]; simpl; try done.
    + by destruct (Hnb b Hx).
    + intros Hz. apply negb_false_iff, Z.eqb_eq in Hz. by subst.
  - rewrite (get_shape_tuple_unfold g old_size false shape) by done.
    f_equal. clear Hshape.
    induction shape as [|d shape IH]; simpl; [done | f_equal; exact IH].
Qed.

Lemma get_shape_tuple_1_4_1 :
  get_shape_tuple session_A (ParseResults [SizeStr "1"; SizeStr "4"; SizeInt 1]) true
    = Ok (List.filter ne_one [VInt 1; VInt 4; VInt 1]) /\
  (forall d, d ∈ [VInt 1; VInt 4; VInt 1] -> ne_one d = false <-> d = VInt 1) /\
  get_shape_tuple session_A (ParseResults [SizeStr "1"; SizeStr "4"; SizeInt 1]) false
    = Ok [VInt 1; VInt 4; VInt 1].
Proof.
  apply get_shape_tuple_squeeze. reflexivity.
Defined.

(** The squeezed shape itself: [(4,)]. *)
Example get_shape_tuple_1_4_1_value :
  get_shape_tuple session_A (ParseResults [SizeStr "1"; SizeStr "4"; SizeInt 1]) true
  = Ok [VInt 4].
Proof. reflexivity. Qed.

(** ** [parse_enums] *)

(** A member with shift operands [(a, b)] gets [a << b]. *)
Lemma next_enum_value_shift value member a b :
  str_truthy (bit_lshift_a member) = true ->
  py_int (bit_lshift_a member) = Ok a ->
  py_int (bit_lshift_b member) = Ok b ->
  0 <= b ->
  next_enum_value value member = Ok (Z.shiftl a b).
Proof.
  intros Hs Ha Hb Hpos. unfold next_enum_value, py_lshift.
  rewrite Hs, Ha, Hb. simpl.
  by destruct (Z.ltb_spec b 0); [lia|].
Qed.

(** A member with an explicit value and no shift gets that value. *)
Lemma next_enum_value_explicit value member n :
  str_truthy (bit_lshift_a member) = false ->
  str_truthy (member_value member) = true ->
  py_int (member_value member) = Ok n ->
  next_enum_value value member = Ok n.
Proof. intros Hs Hv Hn. unfold next_enum_value. by rewrite Hs, Hv. Qed.

(** A member with neither gets the running value plus one. *)
Lemma next_enum_value_implicit value member :
  str_truthy (bit_lshift_a member) = false ->
  str_truthy (member_value member) = false ->
  next_enum_value value member = Ok (value + 1).
Proof. intros Hs Hv. unfold next_enum_value. by rewrite Hs, Hv. Qed.

(** The running value starts at [0] and is incremented before it is
    stored: a first member with neither shift nor value is recorded as
    [1]. *)
Lemma enum_first_member_implicit member rest members :
  str_truthy (bit_lshift_a member) = false ->
  str_truthy (member_value member) = false ->
  enum_members_loop [] 0 (member :: rest) = Ok members ->
  dict_get members (member_name member) = Some (VInt 1).
Proof.
  intros Hs Hv. simpl. rewrite next_enum_value_implicit by done. simpl.
  assert (forall l ms value ms',
             enum_members_loop ms value l = Ok ms' ->
             forall k v, dict_get ms k = Some v -> dict_get ms' k = Some v)
    as Hkeep.
  { induction l as [|m l IH]; intros ms value ms'; simpl.
    - by intros [= <-].
    - destruct (next_enum_value value m) as [value'|]; simpl; [|done].
      unfold UniqueOrderedDict_setitem.
      destruct (dict_has ms (member_name m)); simpl; [done|].
      intros Hl k v Hk. eapply IH; [exact Hl|].
      by rewrite dict_get_app, Hk. }
  intros Hloop. eapply Hkeep; [exact Hloop|].
  simpl. by rewrite String.eqb_refl.
Qed.

(** C1, as the code has it: whatever the grammar, when the header
    declares [enum E { X, Y=10, Z };] a fresh generator records
    [{"E": {"X": 1, "Y": 10, "Z": 11}}]: the first member, which has no
    value, gets [1], not [0]. *)
Theorem parse_enums_first_member_is_one `{header_parsing} src :
  ENUM_DECL src = [[enum_E]] ->
  parse_enums src (__init__ None None None None None)
  = (Ok tt,
     {| enums_dict := [("E", [("X", VInt 1); ("Y", VInt 10); ("Z", VInt 11)])];
        consts_dict := []; typedefs_dict := []; hints_dict := [];
        index_dict := []; classes := default_classes |}).
Proof. intros Hsrc. unfold parse_enums. rewrite Hsrc. reflexivity. Qed.

Lemma parse_enums_header_E :
  @parse_enums header_E "enum E { X, Y=10, Z };" (__init__ None None None None None)
  = (Ok tt,
     {| enums_dict := [("E", [("X", VInt 1); ("Y", VInt 10); ("Z", VInt 11)])];
        consts_dict := []; typedefs_dict := []; hints_dict := [];
        index_dict := []; classes := default_classes |}).
Proof.
  apply (@parse_enums_first_member_is_one header_E). reflexivity.
Defined.

(** ** [_recurse_into_conditionals] *)

Lemma for_each_app {A} (l l' : list A) (body : A -> M unit) g :
  for_each (l ++ l') body g = (for_each l body ;; for_each l' body)%gen g.
Proof.
  revert g. induction l as [|x l IH]; intros g; simpl.
  - reflexivity.
  - unfold bind in *. destruct (body x g) as [[[]|e] g1]; [|done].
    by rewrite IH.
Qed.

(** The loop inside [recurse_token] is [_recurse_into_conditionals]. *)
Lemma recurse_token_loop tokens :
  (fix recurse (tokens : list token) : M unit :=
     match tokens with
     | [] => ret tt
     | t' :: rest => (recurse_token t' ;; recurse rest)%gen
     end) tokens
  = _recurse_into_conditionals tokens.
Proof.
  unfold _recurse_into_conditionals.
  induction tokens as [|t tokens IH]; simpl; [done|]. by rewrite IH.
Qed.

Lemma recurse_token_conditional predicate if_true if_false typename name value g :
  str_truthy predicate = true ->
  recurse_token (Token predicate if_true if_false typename name value) g
  = if condition g predicate then _recurse_into_conditionals if_true g
    else _recurse_into_conditionals if_false g.
Proof.
  intros Hp. simpl. rewrite Hp. by rewrite !recurse_token_loop.
Qed.

(** A conditional token behaves as the tokens of the branch its
    predicate selects, put in its place. *)
Lemma recurse_conditional_splice predicate if_true if_false typename name value rest g :
  str_truthy predicate = true ->
  _recurse_into_conditionals
    (Token predicate if_true if_false typename name value :: rest) g
  = _recurse_into_conditionals
      ((if condition g predicate then if_true else if_false) ++ rest) g.
Proof.
  intros Hp. unfold _recurse_into_conditionals.
  rewrite for_each_app. cbn [for_each]. unfold bind.
  rewrite recurse_token_conditional by done.
  unfold _recurse_into_conditionals. by destruct (condition g predicate).
Qed.

Lemma token_names_loop tokens :
  (fix names (tokens : list token) : list string :=
     match tokens with
     | [] => []
     | t' :: rest => token_names t' ++ names rest
     end) tokens
  = declared_names tokens.
Proof.
  unfold declared_names.
  induction tokens as [|t tokens IH]; simpl; [done|]. by rewrite IH.
Qed.

Lemma token_names_conditional predicate if_true if_false typename name value :
  str_truthy predicate = true ->
  token_names (Token predicate if_true if_false typename name value)
  = declared_names if_true ++ declared_names if_false.
Proof. intros Hp. simpl. rewrite Hp. by rewrite !token_names_loop. Qed.

(** Induction on token trees, through the two branch lists. *)
Lemma token_tree_ind (P : token -> Prop) :
  (forall predicate if_true if_false typename name value,
      Forall P if_true -> Forall P if_false ->
      P (Token predicate if_true if_false typename name value)) ->
  forall t, P t.
Proof.
  intros Hstep. fix IH 1.
  intros [predicate if_true if_false typename name value].
  apply Hstep.
  - induction if_true as [|t l IHl]; constructor; [apply IH | exact IHl].
  - induction if_false as [|t l IHl]; constructor; [apply IH | exact IHl].
Qed.

Lemma only_declares_refl names g : only_declares names g g.
Proof. repeat split; auto. Qed.

Lemma only_declares_weaken names names' g g' :
  names ⊆ names' -> only_declares names g g' -> only_declares names' g g'.
Proof.
  intros Hsub (He & Hh & Hi & Hc & Ht). repeat split; [done..| |].
  - intros k Hk. destruct (Hc k Hk); auto.
  - intros k Hk. destruct (Ht k Hk); auto.
Qed.

Lemma only_declares_trans names g1 g2 g3 :
  only_declares names g1 g2 -> only_declares names g2 g3 ->
  only_declares names g1 g3.
Proof.
  intros (He & Hh & Hi & Hc & Ht) (He' & Hh' & Hi' & Hc' & Ht').
  repeat split; [congruence..| |].
  - intros k Hk. destruct (Hc' k Hk); auto.
  - intros k Hk. destruct (Ht' k Hk); auto.
Qed.

Lemma UniqueOrderedDict_setitem_keys {V} (d d' : UniqueOrderedDict V) k v :
  UniqueOrderedDict_setitem d k v = Ok d' -> dict_keys d' = dict_keys d ++ [k].
Proof.
  unfold UniqueOrderedDict_setitem. destruct (dict_has d k); [done|].
  intros [= <-]. unfold dict_keys. by rewrite map_app.
Qed.

Lemma set_const_only_declares name v g :
  only_declares [name] g (snd (set_const name v g)).
Proof.
  unfold set_const.
  destruct (mapping_setitem _ (consts_dict g) name v) as [d|e] eqn:Hset;
    simpl; [|apply only_declares_refl].
  repeat split; simpl; auto.
  intros k Hk. destruct (proj2 (mapping_setitem_keys _ _ _ _ _ Hset) k Hk) as [Hin | ->];
    [by left | right; by apply list_elem_of_singleton].
Qed.

Lemma set_typedef_only_declares name v g :
  only_declares [name] g (snd (set_typedef name v g)).
Proof.
  unfold set_typedef.
  destruct (mapping_setitem _ (typedefs_dict g) name v) as [d|e] eqn:Hset;
    simpl; [|apply only_declares_refl].
  repeat split; simpl; auto.
  intros k Hk. destruct (proj2 (mapping_setitem_keys _ _ _ _ _ Hset) k Hk) as [Hin | ->];
    [by left | right; by apply list_elem_of_singleton].
Qed.

Lemma for_each_only_declares tokens :
  Forall (fun t => forall g, only_declares (token_names t) g (snd (recurse_token t g)))
         tokens ->
  forall g, only_declares (declared_names tokens) g
                          (snd (_recurse_into_conditionals tokens g)).
Proof.
  unfold _recurse_into_conditionals, declared_names.
  induction 1 as [|t tokens Ht _ IH]; intros g; simpl.
  - apply only_declares_refl.
  - unfold bind. specialize (Ht g).
    destruct (recurse_token t g) as [[[]|e] g1]; simpl in *.
    + eapply only_declares_trans.
      * eapply only_declares_weaken; [|exact Ht].
        intros k Hk. apply elem_of_app. by left.
      * eapply only_declares_weaken; [|apply IH].
        intros k Hk. apply elem_of_app. by right.
    + eapply only_declares_weaken; [|exact Ht].
      intros k Hk. apply elem_of_app. by left.
Qed.

Lemma recurse_token_leaf predicate if_true if_false typename name value :
  str_truthy predicate = false ->
  recurse_token (Token predicate if_true if_false typename name value)
  = if str_truthy typename then set_typedef name (VStr typename)
    else if str_truthy value then
           match try_coerce_to_num (VStr value) with
           | VStr _ => ret tt
           | v => set_const name v
           end
         else set_const name (VBool true).
Proof. intros Hp. cbn [recurse_token]. by rewrite Hp. Qed.

Lemma token_names_leaf predicate if_true if_false typename name value :
  str_truthy predicate = false ->
  token_names (Token predicate if_true if_false typename name value) = [name].
Proof. intros Hp. cbn [token_names]. by rewrite Hp. Qed.

Lemma recurse_token_only_declares t g :
  only_declares (token_names t) g (snd (recurse_token t g)).
Proof.
  revert g. induction t as [predicate if_true if_false typename name value IHt IHf]
    using token_tree_ind.
  intros g. destruct (str_truthy predicate) eqn:Hp.
  - rewrite recurse_token_conditional, token_names_conditional by done.
    destruct (condition g predicate).
    + eapply only_declares_weaken; [|by apply for_each_only_declares].
      intros k Hk. apply elem_of_app. by left.
    + eapply only_declares_weaken; [|by apply for_each_only_declares].
      intros k Hk. apply elem_of_app. by right.
  - rewrite recurse_token_leaf, token_names_leaf by done.
    destruct (str_truthy typename); [apply set_typedef_only_declares|].
    destruct (str_truthy value); [|apply set_const_only_declares].
    destruct (try_coerce_to_num (VStr value));
      first [apply set_const_only_declares | apply only_declares_refl].
Qed.

(** Whatever a run of [_recurse_into_conditionals] adds is declared by
    one of its tokens. *)
Lemma recurse_only_declares tokens g :
  only_declares (declared_names tokens) g
                (snd (_recurse_into_conditionals tokens g)).
Proof.
  apply for_each_only_declares, Forall_forall.
  intros t _ g'. apply recurse_token_only_declares.
Qed.

(** A loop whose body keeps a reflexive and transitive relation
    between the generator before and after keeps it as a whole,
    whether it ends normally or not. *)
Lemma for_each_keeps {A} (R : BindingGenerator -> BindingGenerator -> Prop)
    (l : list A) (body : A -> M unit) :
  (forall g, R g g) ->
  (forall g1 g2 g3, R g1 g2 -> R g2 g3 -> R g1 g3) ->
  (forall x g, x ∈ l -> R g (snd (body x g))) ->
  forall g, R g (snd (for_each l body g)).
Proof.
  intros Hrefl Htrans. induction l as [|x l IH]; intros Hbody g; simpl.
  - apply Hrefl.
  - unfold bind. pose proof (Hbody x g (list_elem_of_here _ _)) as Hx.
    destruct (body x g) as [[[]|e] g1]; simpl in *; [|done].
    eapply Htrans; [exact Hx|]. apply IH.
    intros y g' Hy. apply Hbody. by apply list_elem_of_further.
Qed.

Lemma declarations_appended_refl g : declarations_appended g g.
Proof. by repeat split. Qed.

Lemma declarations_appended_trans g1 g2 g3 :
  declarations_appended g1 g2 -> declarations_appended g2 g3 ->
  declarations_appended g1 g3.
Proof.
  intros (He & Hh & Hi & Hcl & Hkc & Hkt & Hc & Ht)
         (He' & Hh' & Hi' & Hcl' & Hkc' & Hkt' & Hc' & Ht').
  unfold declarations_appended.
  repeat split; try congruence; try (by etrans).
  - intros Hu. etrans; [by apply Hc|]. apply Hc'. by rewrite Hcl.
  - intros Hu. etrans; [by apply Ht|]. apply Ht'. by rewrite Hcl.
Qed.

Lemma set_const_appended name v g :
  declarations_appended g (snd (set_const name v g)).
Proof.
  unfold set_const.
  destruct (mapping_setitem _ (consts_dict g) name v) as [d|] eqn:Hset; simpl;
    [|apply declarations_appended_refl].
  repeat split; simpl; try done.
  - by apply (mapping_setitem_keys _ _ _ _ _ Hset).
  - intros Hu. rewrite Hu in Hset.
    apply mapping_setitem_unique in Hset as [_ ->]. by apply prefix_app_r.
Qed.

Lemma set_typedef_appended name v g :
  declarations_appended g (snd (set_typedef name v g)).
Proof.
  unfold set_typedef.
  destruct (mapping_setitem _ (typedefs_dict g) name v) as [d|] eqn:Hset; simpl;
    [|apply declarations_appended_refl].
  repeat split; simpl; try done.
  - by apply (mapping_setitem_keys _ _ _ _ _ Hset).
  - intros Hu. rewrite Hu in Hset.
    apply mapping_setitem_unique in Hset as [_ ->]. by apply prefix_app_r.
Qed.

Lemma recurse_token_appended t g :
  declarations_appended g (snd (recurse_token t g)).
Proof.
  revert g. induction t as [predicate if_true if_false typename name value IHt IHf]
    using token_tree_ind.
  intros g. destruct (str_truthy predicate) eqn:Hp.
  - rewrite recurse_token_conditional by done.
    rewrite Forall_forall in IHt, IHf.
    destruct (condition g predicate); unfold _recurse_into_conditionals.
    + apply (for_each_keeps declarations_appended);
        [apply declarations_appended_refl
        |intros g1 g2 g3; apply declarations_appended_trans
        |intros t g0 Ht; by apply IHt].
    + apply (for_each_keeps declarations_appended);
        [apply declarations_appended_refl
        |intros g1 g2 g3; apply declarations_appended_trans
        |intros t g0 Ht; by apply IHf].
  - rewrite recurse_token_leaf by done.
    destruct (str_truthy typename); [apply set_typedef_appended|].
    destruct (str_truthy value); [|apply set_const_appended].
    destruct (try_coerce_to_num (VStr value));
      first [apply set_const_appended | apply declarations_appended_refl].
Qed.

Lemma recurse_appended tokens g :
  declarations_appended g (snd (_recurse_into_conditionals tokens g)).
Proof.
  unfold _recurse_into_conditionals.
  apply (for_each_keeps declarations_appended).
  - apply declarations_appended_refl.
  - intros g1 g2 g3. apply declarations_appended_trans.
  - intros t g0 _. apply recurse_token_appended.
Qed.

Lemma recurse_cons t rest g :
  _recurse_into_conditionals (t :: rest) g
  = (recurse_token t ;; _recurse_into_conditionals rest)%gen g.
Proof. reflexivity. Qed.

Lemma prefix_dict_get {V} (d d' : dict V) k v :
  d `prefix_of` d' -> dict_get d k = Some v -> dict_get d' k = Some v.
Proof. intros [rest ->] Hk. by rewrite dict_get_app, Hk. Qed.

Lemma set_typedef_recorded name v g g' :
  set_typedef name v g = (Ok tt, g') ->
  name ∈ dict_keys (typedefs_dict g') /\ dict_get (typedefs_dict g') name = Some v.
Proof.
  unfold set_typedef.
  destruct (mapping_setitem _ (typedefs_dict g) name v) as [d|] eqn:Hset; [|done].
  intros [= <-]. simpl. apply mapping_setitem_get in Hset.
  split; [by eapply dict_get_Some_keys | done].
Qed.

Lemma set_const_recorded name v g g' :
  set_const name v g = (Ok tt, g') ->
  name ∈ dict_keys (consts_dict g') /\ dict_get (consts_dict g') name = Some v.
Proof.
  unfold set_const.
  destruct (mapping_setitem _ (consts_dict g) name v) as [d|] eqn:Hset; [|done].
  intros [= <-]. simpl. apply mapping_setitem_get in Hset.
  split; [by eapply dict_get_Some_keys | done].
Qed.

(** A declaration that has been processed is recorded. *)
Lemma recurse_token_recorded t g g' :
  recurse_token t g = (Ok tt, g') -> recorded t g'.
Proof.
  destruct t as [predicate if_true if_false typename name value]. unfold recorded.
  destruct (str_truthy predicate) eqn:Hp; [done|].
  rewrite recurse_token_leaf by done.
  destruct (str_truthy typename).
  - intros Hset. apply set_typedef_recorded in Hset as [Hin Hget]. by split.
  - destruct (str_truthy value).
    + cbn [try_coerce_to_num]. destruct (py_int value) as [n|]; [|done].
      intros Hset. apply set_const_recorded in Hset as [Hin Hget]. by split.
    + intros Hset. apply set_const_recorded in Hset as [Hin Hget]. by split.
Qed.

(** What is recorded stays recorded through later declarations. *)
Lemma recorded_kept t g g' :
  declarations_appended g g' -> recorded t g -> recorded t g'.
Proof.
  intros (_ & _ & _ & Hcl & Hkc & Hkt & Hc & Ht).
  destruct t as [predicate if_true if_false typename name value]. unfold recorded.
  rewrite Hcl.
  assert (forall (d d' : dict pyval) (c : mapping_class) v,
             dict_keys d `prefix_of` dict_keys d' ->
             (c = UniqueOrderedDict_class -> d `prefix_of` d') ->
             name ∈ dict_keys d /\
             (c = UniqueOrderedDict_class -> dict_get d name = Some v) ->
             name ∈ dict_keys d' /\
             (c = UniqueOrderedDict_class -> dict_get d' name = Some v)) as Hkeep.
  { intros d d' c v [more Hkeys] Hpre [Hin Hget]. split.
    - rewrite Hkeys. apply elem_of_app. by left.
    - intros Hu. eapply prefix_dict_get; [by apply Hpre | by apply Hget]. }
  destruct (str_truthy predicate); [done|].
  destruct (str_truthy typename); [by apply Hkeep|].
  destruct (str_truthy value); [|by apply Hkeep].
  destruct (py_int value); [by apply Hkeep | done].
Qed.

(** After a run that returns, every declaration of the list itself is
    recorded. *)
Lemma recurse_recorded tokens : forall g,
  fst (_recurse_into_conditionals tokens g) = Ok tt ->
  Forall (fun t => recorded t (snd (_recurse_into_conditionals tokens g))) tokens.
Proof.
  induction tokens as [|t tokens IH]; intros g; [by constructor|].
  rewrite recurse_cons. unfold bind.
  destruct (recurse_token t g) as [[[]|e] g1] eqn:Ht; [|done].
  intros Hok. constructor; [|by apply IH].
  eapply recorded_kept; [apply recurse_appended|].
  by eapply recurse_token_recorded.
Qed.

(** C5: a conditional token takes one branch.  When its predicate is
    absent from the combined view, or maps there to a falsy value, the
    run is the run of the [if_false] tokens in its place; whatever
    entered the tables is declared in [if_false] or in the tokens that
    follow, so nothing of [if_true] is looked at; and when the run
    returns, every declaration of [if_false] is recorded.  With a
    truthy predicate the same holds with the branches exchanged. *)
Theorem conditional_takes_one_branch
    predicate if_true if_false typename name value rest g :
  str_truthy predicate = true ->
  let t := Token predicate if_true if_false typename name value in
  let view := get_consts_and_enums g in
  ((dict_get view predicate = None \/
    exists v, dict_get view predicate = Some v /\ truthy v = false) ->
   _recurse_into_conditionals (t :: rest) g
     = _recurse_into_conditionals (if_false ++ rest) g /\
   only_declares (declared_names (if_false ++ rest)) g
                 (snd (_recurse_into_conditionals (t :: rest) g)) /\
   (fst (_recurse_into_conditionals (t :: rest) g) = Ok tt ->
    Forall (fun d => recorded d (snd (_recurse_into_conditionals (t :: rest) g)))
           if_false)) /\
  ((exists v, dict_get view predicate = Some v /\ truthy v = true) ->
   _recurse_into_conditionals (t :: rest) g
     = _recurse_into_conditionals (if_true ++ rest) g /\
   only_declares (declared_names (if_true ++ rest)) g
                 (snd (_recurse_into_conditionals (t :: rest) g)) /\
   (fst (_recurse_into_conditionals (t :: rest) g) = Ok tt ->
    Forall (fun d => recorded d (snd (_recurse_into_conditionals (t :: rest) g)))
           if_true)).
Proof.
  intros Hp t view. subst t view. split.
  - intros Hfalse.
    assert (condition g predicate = false) as Hcond.
    { unfold condition.
      destruct Hfalse as [-> | (v & -> & Hv)]; done. }
    rewrite recurse_conditional_splice, Hcond by done.
    split; [done|]. split; [apply recurse_only_declares|].
    intros Hok. apply recurse_recorded in Hok.
    by apply Forall_app in Hok as [Hbranch _].
  - intros (v & Hv & Htrue).
    assert (condition g predicate = true) as Hcond.
    { unfold condition. by rewrite Hv. }
    rewrite recurse_conditional_splice, Hcond by done.
    split; [done|]. split; [apply recurse_only_declares|].
    intros Hok. apply recurse_recorded in Hok.
    by apply Forall_app in Hok as [Hbranch _].
Qed.

Lemma conditional_FOO_absent :
  _recurse_into_conditionals [cond_FOO] (__init__ None None None None None)
    = _recurse_into_conditionals ([Token "" [] [] "" "mjMINVAL" "5"] ++ [])
        (__init__ None None None None None) /\
  only_declares (declared_names ([Token "" [] [] "" "mjMINVAL" "5"] ++ []))
    (__init__ None None None None None)
    (snd (_recurse_into_conditionals [cond_FOO] (__init__ None None None None None))) /\
  Forall (fun d => recorded d (snd (_recurse_into_conditionals [cond_FOO]
                                      (__init__ None None None None None))))
         [Token "" [] [] "" "mjMINVAL" "5"].
Proof.
  destruct (conditional_takes_one_branch
              "FOO" [Token "" [] [] "double" "mjtNum" ""]
              [Token "" [] [] "" "mjMINVAL" "5"] "" "" "" []
              (__init__ None None None None None) eq_refl) as [Hfalse _].
  destruct Hfalse as (Hrun & Hframe & Hrecorded); [left; reflexivity|].
  split; [exact Hrun|]. split; [exact Hframe|].
  apply Hrecorded. reflexivity.
Defined.

(** The tables after it: the constant of [if_false], no typedef. *)
Example conditional_FOO_absent_tables :
  _recurse_into_conditionals [cond_FOO] (__init__ None None None None None)
  = (Ok tt,
     {| enums_dict := []; consts_dict := [("mjMINVAL", VInt 5)];
        typedefs_dict := []; hints_dict := []; index_dict := [];
        classes := default_classes |}).
Proof. reflexivity. Qed.

(** ** [resolve_typename] *)

Lemma dict_two_keys {V} (d : dict V) a b x y :
  dict_get d a = Some x -> dict_get d b = Some y -> a <> b ->
  (2 <= length d)%nat.
Proof.
  destruct d as [|[k1 v1] [|[k2 v2] d]]; simpl; [done| |lia].
  destruct (String.eqb k1 a) eqn:Ea, (String.eqb k1 b) eqn:Eb; try done.
  apply String.eqb_eq in Ea, Eb. congruence.
Qed.

(** Two typedefs in a row are both followed. *)
Lemma recursive_dict_lookup_two_levels d a b c :
  dict_get d a = Some (VStr b) ->
  dict_get d b = Some (VStr c) ->
  dict_get d c = None ->
  recursive_dict_lookup (VStr a) d = VStr c.
Proof.
  intros Ha Hb Hc.
  assert (a <> b) as Hab by (intros ->; congruence).
  pose proof (dict_two_keys d a b _ _ Ha Hb Hab) as Hlen.
  unfold recursive_dict_lookup.
  destruct (length d) as [|[|n]]; [lia..|].
  cbn [chase value_get]. rewrite Ha.
  cbn [chase value_get]. rewrite Hb.
  destruct n; cbn [chase value_get]; [done | by rewrite Hc].
Qed.

Lemma recursive_dict_lookup_absent d a :
  dict_get d a = None -> recursive_dict_lookup (VStr a) d = VStr a.
Proof.
  intros Ha. unfold recursive_dict_lookup.
  destruct (length d); cbn [chase value_get]; [done | by rewrite Ha].
Qed.

(** C6: [resolve_typename] follows a typedef of a typedef and then the
    table of C type names; it always returns, and when what it returns
    is the name it was given, the only effect is one warning. *)
Theorem resolve_typename_chain `{header_parsing} g :
  (forall a b c t,
      dict_get (typedefs_dict g) a = Some (VStr b) ->
      dict_get (typedefs_dict g) b = Some (VStr c) ->
      dict_get (typedefs_dict g) c = None ->
      dict_get C_TO_CTYPES c = Some t ->
      resolve_typename g a = (VStr t, if String.eqb t a then could_not_resolve a else [])) /\
  (forall old,
      fst (resolve_typename g old) = VStr old ->
      resolve_typename g old = (VStr old, could_not_resolve old)) /\
  (forall old,
      dict_get (typedefs_dict g) old = None ->
      dict_get C_TO_CTYPES old = None ->
      resolve_typename g old = (VStr old, could_not_resolve old)).
Proof.
  split; [|split].
  - intros a b c t Ha Hb Hc Ht. unfold resolve_typename.
    rewrite (recursive_dict_lookup_two_levels _ a b c) by done.
    unfold ctypes_get. rewrite Ht. reflexivity.
  - intros old Hold. unfold resolve_typename in *. simpl in Hold.
    rewrite Hold. simpl. by rewrite String.eqb_refl.
  - intros old Htd Hct. unfold resolve_typename.
    rewrite recursive_dict_lookup_absent by done.
    unfold ctypes_get. rewrite Hct. simpl. by rewrite String.eqb_refl.
Qed.

Lemma resolve_typename_A_is_i32 :
  @resolve_typename header_i32 session_typedefs "A" = (VStr "i32", []) /\
  @resolve_typename header_i32 session_typedefs "mjtNum"
    = (VStr "mjtNum", could_not_resolve "mjtNum").
Proof.
  destruct (@resolve_typename_chain header_i32 session_typedefs)
    as (Hchain & Hsame & _).
  split.
  - apply (Hchain "A" "B" "int" "i32"); reflexivity.
  - apply Hsame. reflexivity.
Defined.

(** ** [get_consts_and_enums] *)

Lemma dict_get_rev_None {V} (d : dict V) k :
  dict_get d k = None -> dict_get (rev d) k = None.
Proof.
  rewrite !dict_get_None_keys. unfold dict_keys.
  rewrite map_rev. intros Hn Hin. apply Hn.
  apply list_elem_of_In, in_rev. by apply list_elem_of_In.
Qed.

Lemma view_fold_skip enums (d : dict pyval) k :
  Forall (fun e => dict_get e k = None) enums ->
  dict_get (fold_left (fun acc enum => dict_update acc enum) enums d) k
  = dict_get d k.
Proof.
  intros Hall. revert d. induction Hall as [|e enums He _ IH]; intros d; simpl.
  - done.
  - rewrite IH, dict_get_update. by rewrite dict_get_rev_None.
Qed.

(** The member of the last enum that has the name is what the view
    holds, whatever the constants say. *)
Lemma view_enum_member_wins g pre e post k v :
  dict_values (enums_dict g) = pre ++ e :: post ->
  NoDup (dict_keys e) ->
  dict_get e k = Some v ->
  Forall (fun e' => dict_get e' k = None) post ->
  dict_get (get_consts_and_enums g) k = Some v.
Proof.
  intros Henums Hnd Hk Hpost. unfold get_consts_and_enums.
  rewrite Henums, fold_left_app. simpl.
  rewrite view_fold_skip by done.
  rewrite dict_get_update, dict_get_rev by done. by rewrite Hk.
Qed.

(** A name that no enum has is looked up among the constants. *)
Lemma view_constant g k :
  Forall (fun e => dict_get e k = None) (dict_values (enums_dict g)) ->
  dict_get (get_consts_and_enums g) k = dict_get (consts_dict g) k.
Proof. intros Hall. unfold get_consts_and_enums. by apply view_fold_skip. Qed.

(** ** The tables as Python objects *)

Section StoreFacts.
Import Store.

Lemma read_values_dom (h : heap) r d : read_values h r = Some d -> r ∈ dom h.
Proof.
  unfold read_values. intros Hr. apply elem_of_dom.
  destruct (h !! r); [by eexists | done].
Qed.

Lemma read_enums_dom (h : heap) r d : read_enums h r = Some d -> r ∈ dom h.
Proof.
  unfold read_enums. intros Hr. apply elem_of_dom.
  destruct (h !! r); [by eexists | done].
Qed.

Lemma read_values_insert_ne (h : heap) view o r :
  r <> view -> read_values (<[view := o]> h) r = read_values h r.
Proof. intros Hne. unfold read_values. by rewrite lookup_insert_ne. Qed.

Lemma read_values_insert_eq (h : heap) view d :
  read_values (<[view := Values d]> h) view = Some d.
Proof. unfold read_values. by rewrite lookup_insert_eq. Qed.

Lemma update_each_writes_view view enums :
  forall (h : heap) members entries,
    Forall2 (fun e m => e <> view /\ read_values h e = Some m) enums members ->
    read_values h view = Some entries ->
    exists h',
      update_each view enums h = Some h' /\
      (forall r, r <> view -> h' !! r = h !! r) /\
      read_values h' view
      = Some (fold_left (fun acc enum => dict_update acc enum) members entries).
Proof.
  induction enums as [|e enums IH]; intros h members entries Hread Hview.
  - apply Forall2_nil_inv_l in Hread as ->. by exists h.
  - apply Forall2_cons_inv_l in Hread as (m & members' & [He Hm] & Hrest & ->).
    simpl. rewrite Hm, Hview.
    destruct (IH (<[view := Values (dict_update entries m)]> h) members'
                 (dict_update entries m)) as (h' & Hrun & Hframe & Hres).
    + eapply Forall2_impl; [exact Hrest|]. simpl. intros e' m' [Hne He'].
      split; [done|]. by rewrite read_values_insert_ne.
    + apply read_values_insert_eq.
    + exists h'. split; [done|]. split; [|done].
      intros r Hr. rewrite Hframe by done. by rewrite lookup_insert_ne.
Qed.

(** On a heap that holds the tables of [g], the method returns a
    reference that was not in use, leaves every object that was there
    as it was, and the new object holds the combined view of [g]. *)
Lemma run_get_consts_and_enums_copies (h : heap) self g :
  represents h self g ->
  exists view h',
    run_get_consts_and_enums self h = Some (view, h') /\
    (view ∉ dom h) /\
    (forall r, r ∈ dom h -> h' !! r = h !! r) /\
    read_values h' view = Some (get_consts_and_enums g).
Proof.
  intros (Hconsts & enums & Henums & Hmembers).
  pose proof (is_fresh (dom h)) as Hfresh.
  set (view := fresh (dom h)) in *.
  assert (forall r, r ∈ dom h -> r <> view) as Hold by (intros r Hr ->; done).
  destruct (update_each_writes_view view (dict_values enums)
              (<[view := Values (consts_dict g)]> h)
              (dict_values (enums_dict g)) (consts_dict g))
    as (h' & Hrun & Hframe & Hres).
  - unfold dict_values. apply Forall2_fmap.
    eapply Forall2_impl; [exact Hmembers|]. simpl.
    intros er em [_ Hr]. pose proof (read_values_dom _ _ _ Hr) as Hd.
    split; [by apply Hold|]. rewrite read_values_insert_ne; [done | by apply Hold].
  - apply read_values_insert_eq.
  - exists view, h'. split; [|split; [done|split; [|done]]].
    + unfold run_get_consts_and_enums. rewrite Hconsts. fold view. simpl.
      unfold read_enums in *. rewrite lookup_insert_ne.
      2:{ intros Heq. apply (Hold (enums_ref self)); [|done].
          apply elem_of_dom. destruct (h !! enums_ref self); [by eexists | done]. }
      destruct (h !! enums_ref self) as [[|d]|]; try done.
      injection Henums as ->. by rewrite Hrun.
    + intros r Hr. rewrite Hframe by (by apply Hold).
      rewrite lookup_insert_ne; [done|]. intros Heq. by apply (Hold r).
Qed.

End StoreFacts.

(** C7: in the combined view an enum member hides a constant of the
    same name (of several enums that have the name, the last in table
    order is the one seen), and building the view writes to a new
    object only: every object that existed, the constants and the
    enums among them, is as it was. *)
Theorem view_enum_wins_and_tables_kept g :
  (forall pre e post k v,
      dict_values (enums_dict g) = pre ++ e :: post ->
      NoDup (dict_keys e) ->
      dict_get e k = Some v ->
      Forall (fun e' => dict_get e' k = None) post ->
      dict_get (get_consts_and_enums g) k = Some v) /\
  (forall (h : gmap positive Store.object) self,
      Store.represents h self g ->
      exists view h',
        Store.run_get_consts_and_enums self h = Some (view, h') /\
        (view ∉ dom h) /\
        (forall r, r ∈ dom h -> h' !! r = h !! r) /\
        Store.read_values h' view = Some (get_consts_and_enums g)).
Proof.
  split.
  - intros pre e post k v. apply view_enum_member_wins.
  - intros h self. apply run_get_consts_and_enums_copies.
Qed.

Lemma view_shadow :
  dict_get (get_consts_and_enums session_shadow) "mjMAXVAL" = Some (VInt 9) /\
  exists view h',
    Store.run_get_consts_and_enums (Store.Generator 1 2) heap_shadow
      = Some (view, h') /\
    (view ∉ dom heap_shadow) /\
    (forall r, r ∈ dom heap_shadow -> h' !! r = heap_shadow !! r) /\
    Store.read_values h' view = Some (get_consts_and_enums session_shadow).
Proof.
  destruct (view_enum_wins_and_tables_kept session_shadow) as [Hwins Hkept].
  split.
  - apply (Hwins [] [("mjMAXVAL", VInt 9); ("mjOTHER", VInt 10)] []).
    + reflexivity.
    + apply NoDup_cons. split.
      * intros Hin. apply list_elem_of_singleton in Hin. discriminate Hin.
      * apply NoDup_singleton.
    + reflexivity.
    + constructor.
  - apply Hkept. split; [reflexivity|].
    exists [("mjtEnum", 3%positive)]. split; [reflexivity|].
    constructor; [split; reflexivity | constructor].
Defined.

(** ** Duplicate keys *)

Lemma UniqueOrderedDict_setitem_present {V} (d : UniqueOrderedDict V) k v :
  dict_has d k = true ->
  UniqueOrderedDict_setitem d k v = Raise (DuplicateKeyError k).
Proof. intros Hk. unfold UniqueOrderedDict_setitem. by rewrite Hk. Qed.

(** An enum block whose name is taken: its members are collected, the
    insertion fails, and the generator is as before. *)
Lemma parse_enum_duplicate_name enum members g :
  enums_class (classes g) = UniqueOrderedDict_class ->
  enum_members_loop [] 0 (enum_members enum) = Ok members ->
  dict_has (enums_dict g) (enum_name enum) = true ->
  parse_enum enum g = (Raise (DuplicateKeyError (enum_name enum)), g).
Proof.
  intros Hclass Hloop Hk. unfold parse_enum, bind, lift. rewrite Hloop.
  unfold set_enum. rewrite Hclass. simpl.
  by rewrite UniqueOrderedDict_setitem_present.
Qed.

(** ** [parse_hints] *)

(** [setdefault] never raises: it inserts only a key that is absent. *)
Lemma UniqueOrderedDict_setdefault_ok {V} (d : UniqueOrderedDict V) k default :
  UniqueOrderedDict_setdefault d k default
  = Ok (match dict_get d k with
        | Some v => (v, d)
        | None => (default, d ++ [(k, default)])
        end).
Proof.
  unfold UniqueOrderedDict_setdefault, UniqueOrderedDict_setitem, dict_has.
  by destruct (dict_get d k).
Qed.

(** For a table of either class. *)
Lemma mapping_setdefault_ok {V} c (d : dict V) k default :
  mapping_setdefault c d k default
  = Ok (match dict_get d k with
        | Some v => (v, d)
        | None => (default, d ++ [(k, default)])
        end).
Proof.
  destruct c; simpl; [|apply UniqueOrderedDict_setdefault_ok].
  destruct (dict_get d k) eqn:Hk; [done|]. by rewrite dict_setitem_fresh.
Qed.

Lemma index_add_run struct_name name shape g :
  index_add struct_name name shape g
  = (Ok tt,
     mkBindingGenerator (enums_dict g) (consts_dict g) (typedefs_dict g)
       (hints_dict g) (add_field struct_name name shape (index_dict g))
       (classes g)).
Proof.
  unfold index_add, add_field, ensure_struct.
  rewrite mapping_setdefault_ok.
  by destruct (dict_get (index_dict g) struct_name).
Qed.

Lemma mapR_ext {A B} (f f' : A -> result B) l :
  (forall x, f x = f' x) -> mapR f l = mapR f' l.
Proof.
  intros Hf. induction l as [|x l IH]; simpl; [done|]. by rewrite Hf, IH.
Qed.

(** Sizes depend on the generator through the combined view only. *)
Lemma resolve_size_rec_view depth g g' old_size :
  get_consts_and_enums g' = get_consts_and_enums g ->
  resolve_size_rec depth g' old_size = resolve_size_rec depth g old_size.
Proof.
  intros Hview. revert old_size.
  induction depth as [|depth IH]; intros [n|s]; simpl; try done.
  - destruct (str_contains "*" s); [done | by rewrite Hview].
  - destruct (str_contains "*" s); [|by rewrite Hview].
    rewrite (mapR_ext (fun part => resolve_size_rec depth g' (SizeStr part))
                      (fun part => resolve_size_rec depth g (SizeStr part)));
      [done | intros part; apply IH].
Qed.

Lemma get_shape_tuple_view g g' old_size squeeze :
  get_consts_and_enums g' = get_consts_and_enums g ->
  get_shape_tuple g' old_size squeeze = get_shape_tuple g old_size squeeze.
Proof.
  intros Hview. unfold get_shape_tuple, resolve_size.
  destruct old_size as [ds|d].
  - rewrite (mapR_ext (resolve_size_rec 1 g') (resolve_size_rec 1 g));
      [done | intros x; by apply resolve_size_rec_view].
  - by rewrite (resolve_size_rec_view 1 g g').
Qed.

Lemma record_hints_view struct_name entries g :
  get_consts_and_enums (record_hints struct_name entries g)
  = get_consts_and_enums g.
Proof. reflexivity. Qed.

Lemma record_hints_cons struct_name e entries g :
  record_hints struct_name (e :: entries) g
  = record_hints struct_name entries (record_hints struct_name [e] g).
Proof.
  unfold record_hints. simpl. f_equal. by rewrite <- app_assoc.
Qed.

Lemma record_hints_app struct_name entries1 entries2 g :
  record_hints struct_name (entries1 ++ entries2) g
  = record_hints struct_name entries2 (record_hints struct_name entries1 g).
Proof.
  unfold record_hints. simpl. rewrite map_app, fold_left_app, app_assoc. done.
Qed.

Lemma record_hints_nil struct_name g : record_hints struct_name [] g = g.
Proof. destruct g. unfold record_hints. simpl. by rewrite app_nil_r. Qed.

Lemma for_each_concat {A} (groups : list (list A)) (body : A -> M unit) g :
  for_each groups (fun tokens => for_each tokens body) g
  = for_each (concat groups) body g.
Proof.
  revert g. induction groups as [|tokens groups IH]; intros g; simpl; [done|].
  rewrite for_each_app. unfold bind.
  destruct (for_each tokens body g) as [[[]|e] g1]; [apply IH | done].
Qed.

Section ParseHints.
Context `{header_parsing} `{codegen_util}.

(** One member of a pointer table, with a new name and a shape that
    resolves: the hint is appended and the field added. *)
Lemma parse_hint_run x member shape g :
  is_macro_pointer (xmacro_name x) = true ->
  get_shape_tuple g (xmember_dims member) true = Ok shape ->
  dict_get (hints_dict g) (xmember_name member) = None ->
  parse_hint x member g
  = (Ok tt, record_hints (macro_struct_name (xmacro_name x))
                         [(xmember_name member, shape)] g).
Proof.
  intros Hptr Hshape Hnew. unfold parse_hint, bind. rewrite Hshape, Hptr.
  unfold set_hint. rewrite mapping_setitem_fresh by done.
  by rewrite index_add_run.
Qed.

(** All members of a pointer table. *)
Lemma parse_hint_loop x members : forall shapes g,
  is_macro_pointer (xmacro_name x) = true ->
  Forall2 (fun member shape =>
             get_shape_tuple g (xmember_dims member) true = Ok shape)
          members shapes ->
  NoDup (map xmember_name members) ->
  Forall (fun member => dict_get (hints_dict g) (xmember_name member) = None)
         members ->
  for_each members (parse_hint x) g
  = (Ok tt, record_hints (macro_struct_name (xmacro_name x))
                         (combine (map xmember_name members) shapes) g).
Proof.
  induction members as [|member members IH]; intros shapes g Hptr Hshapes Hnd Hnew.
  - apply Forall2_nil_inv_l in Hshapes as ->. simpl. by rewrite record_hints_nil.
  - apply Forall2_cons_inv_l in Hshapes as (shape & shapes' & Hshape & Hrest & ->).
    apply Forall_cons in Hnew as [Hnew1 Hnew].
    simpl in Hnd. apply NoDup_cons in Hnd as [Hfresh Hnd].
    cbn [for_each map combine]. unfold bind.
    rewrite (parse_hint_run x member shape g) by done.
    rewrite (record_hints_cons _ (xmember_name member, shape)
               (combine (map xmember_name members) shapes') g).
    apply IH; [done| |done|].
    + eapply Forall2_impl; [exact Hrest|]. simpl. intros m sh Hm.
      rewrite (get_shape_tuple_view g); [done | apply record_hints_view].
    + rewrite Forall_forall in Hnew |- *. intros m Hm. simpl.
      rewrite dict_get_app, (Hnew m Hm). simpl.
      destruct (String.eqb (xmember_name member) (xmember_name m)) eqn:E; [|done].
      apply String.eqb_eq in E. exfalso. apply Hfresh. rewrite E.
      apply list_elem_of_fmap. by exists m.
Qed.

End ParseHints.

Lemma add_field_get struct_name name shape index :
  dict_get (add_field struct_name name shape index) struct_name
  = Some (dict_setitem (default [] (dict_get index struct_name)) name shape).
Proof.
  unfold add_field, ensure_struct. rewrite dict_get_modify_eq.
  destruct (dict_get index struct_name) as [fields|] eqn:Hs; simpl.
  - by rewrite Hs.
  - rewrite dict_get_app, Hs. simpl. by rewrite String.eqb_refl.
Qed.

Lemma add_field_keys_NoDup struct_name name shape index :
  NoDup (dict_keys index) ->
  NoDup (dict_keys (add_field struct_name name shape index)).
Proof.
  intros Hnd. unfold add_field, ensure_struct. rewrite dict_keys_modify.
  destruct (dict_get index struct_name) eqn:Hs; [done|].
  unfold dict_keys. rewrite map_app. simpl.
  apply NoDup_app. split; [done|]. split; [|apply NoDup_singleton].
  intros k Hk Hk'. apply list_elem_of_singleton in Hk' as ->.
  by apply dict_get_None_keys in Hs.
Qed.

Lemma add_fields_keys_NoDup struct_name entries : forall index,
  NoDup (dict_keys index) ->
  NoDup (dict_keys
           (fold_left (fun index e => add_field struct_name (fst e) (VTuple (snd e)) index)
                      entries index)).
Proof.
  induction entries as [|e entries IH]; intros index Hnd; simpl; [done|].
  by apply IH, add_field_keys_NoDup.
Qed.

(** A field that is there stays there while fields of other names are
    added. *)
Lemma add_fields_keep struct_name entries : forall index fields name v,
  dict_get index struct_name = Some fields ->
  dict_get fields name = Some v ->
  name ∉ map fst entries ->
  exists fields',
    dict_get (fold_left (fun index e => add_field struct_name (fst e) (VTuple (snd e)) index)
                        entries index) struct_name = Some fields' /\
    dict_get fields' name = Some v.
Proof.
  induction entries as [|e entries IH]; intros index fields name v Hs Hn Hfresh.
  - by exists fields.
  - simpl in *. apply not_elem_of_cons in Hfresh as [Hne Hfresh].
    eapply IH; [apply add_field_get| |done].
    rewrite Hs. simpl. by rewrite dict_get_setitem_ne.
Qed.

(** Each field added under distinct names is found, with its shape, in
    the one inner dictionary of the struct. *)
Lemma add_fields_get struct_name entries : forall index i name shape,
  NoDup (map fst entries) ->
  entries !! i = Some (name, shape) ->
  exists fields,
    dict_get (fold_left (fun index e => add_field struct_name (fst e) (VTuple (snd e)) index)
                        entries index) struct_name = Some fields /\
    dict_get fields name = Some (VTuple shape).
Proof.
  induction entries as [|e entries IH]; intros index i name shape Hnd Hi; [done|].
  simpl in Hnd. apply NoDup_cons in Hnd as [Hfresh Hnd].
  destruct i as [|i]; simpl in *.
  - injection Hi as ->. simpl in *.
    eapply add_fields_keep; [apply add_field_get| |done].
    apply dict_get_setitem_eq.
  - by eapply IH.
Qed.

Lemma combine_app {A B} (l1 l2 : list A) (k1 k2 : list B) :
  length l1 = length k1 ->
  combine (l1 ++ l2) (k1 ++ k2) = combine l1 k1 ++ combine l2 k2.
Proof.
  revert k1. induction l1 as [|x l1 IH]; intros [|y k1]; simpl; try done.
  intros [= Hlen]. by rewrite IH.
Qed.

Lemma map_fst_combine {A B} (l : list A) (k : list B) :
  length l = length k -> map fst (combine l k) = l.
Proof.
  revert k. induction l as [|x l IH]; intros [|y k]; simpl; try done.
  intros [= Hlen]. by rewrite IH.
Qed.

Lemma combine_lookup {A B} (l : list A) (k : list B) i x y :
  l !! i = Some x -> k !! i = Some y -> combine l k !! i = Some (x, y).
Proof.
  revert k i. induction l as [|x' l IH]; intros [|y' k] [|i]; simpl; try done.
  - by intros [= ->] [= ->].
  - apply IH.
Qed.

(** C10: two pointer tables that name the same struct, one after the
    other; the member names are new and distinct and the shapes
    resolve.  [parse_hints] then returns normally: the struct name
    raises no duplicate-key error.  The index keeps one entry per key,
    and that of the struct holds the fields of both tables, each with
    its shape. *)
Theorem parse_hints_same_struct `{header_parsing} `{codegen_util}
    src x1 x2 shapes g :
  concat (XMACRO src) = [x1; x2] ->
  is_macro_pointer (xmacro_name x1) = true ->
  is_macro_pointer (xmacro_name x2) = true ->
  macro_struct_name (xmacro_name x2) = macro_struct_name (xmacro_name x1) ->
  let members := xmacro_members x1 ++ xmacro_members x2 in
  let struct_name := macro_struct_name (xmacro_name x1) in
  Forall2 (fun member shape =>
             get_shape_tuple g (xmember_dims member) true = Ok shape)
          members shapes ->
  NoDup (map xmember_name members) ->
  Forall (fun member => dict_get (hints_dict g) (xmember_name member) = None)
         members ->
  exists g',
    parse_hints src g = (Ok tt, g') /\
    (NoDup (dict_keys (index_dict g)) -> NoDup (dict_keys (index_dict g'))) /\
    (forall i member shape,
        members !! i = Some member -> shapes !! i = Some shape ->
        exists fields,
          dict_get (index_dict g') struct_name = Some fields /\
          dict_get fields (xmember_name member) = Some (VTuple shape)).
Proof.
  intros Hsrc Hp1 Hp2 Hstruct members struct_name Hshapes Hnd Hnew.
  subst members struct_name.
  apply Forall2_app_inv_l in Hshapes as (shapes1 & shapes2 & Hs1 & Hs2 & ->).
  pose proof (Forall2_length _ _ _ Hs1) as Hlen1.
  rewrite map_app in Hnd. apply NoDup_app in Hnd as (Hnd1 & Hdisj & Hnd2).
  apply Forall_app in Hnew as [Hnew1 Hnew2].
  set (s := macro_struct_name (xmacro_name x1)) in *.
  set (entries1 := combine (map xmember_name (xmacro_members x1)) shapes1).
  set (entries2 := combine (map xmember_name (xmacro_members x2)) shapes2).
  assert (for_each (xmacro_members x1) (parse_hint x1) g
          = (Ok tt, record_hints s entries1 g)) as Hrun1
    by (by apply parse_hint_loop).
  assert (for_each (xmacro_members x2) (parse_hint x2) (record_hints s entries1 g)
          = (Ok tt, record_hints s (entries1 ++ entries2) g)) as Hrun2.
  { rewrite record_hints_app.
    pose proof (parse_hint_loop x2 (xmacro_members x2) shapes2
                  (record_hints s entries1 g) Hp2) as Hloop.
    rewrite Hstruct in Hloop. apply Hloop; [|done|].
    - eapply Forall2_impl; [exact Hs2|]. simpl. intros m sh Hm.
      rewrite (get_shape_tuple_view g); [done | apply record_hints_view].
    - rewrite Forall_forall in Hnew2 |- *. intros m Hm. simpl.
      rewrite dict_get_app, (Hnew2 m Hm). simpl.
      apply dict_get_None_keys. unfold dict_keys, entries1.
      rewrite map_map. simpl. intros Hin.
      apply list_elem_of_fmap in Hin as ([n sh] & Hn & Hin). simpl in Hn.
      apply list_elem_of_In, in_combine_l, list_elem_of_In in Hin.
      apply (Hdisj (xmember_name m)); [by rewrite Hn|].
      apply list_elem_of_fmap. by exists m. }
  pose proof (Forall2_length _ _ _ Hs2) as Hlen2.
  assert (entries1 ++ entries2
          = combine (map xmember_name (xmacro_members x1 ++ xmacro_members x2))
                    (shapes1 ++ shapes2)) as Hentries.
  { unfold entries1, entries2.
    by rewrite map_app, combine_app by (by rewrite length_map). }
  exists (record_hints s (entries1 ++ entries2) g). split; [|split].
  - unfold parse_hints, parse_hints_tokens.
    rewrite for_each_concat, Hsrc. cbn [for_each]. unfold bind.
    rewrite Hrun1, Hrun2. done.
  - intros Hkeys. simpl. by apply add_fields_keys_NoDup.
  - intros i member shape Hm Hsh. simpl. rewrite Hentries.
    apply (add_fields_get s _ (index_dict g) i).
    + rewrite map_fst_combine.
      * rewrite map_app. apply NoDup_app. done.
      * rewrite length_map, !length_app. lia.
    + apply combine_lookup; [|done].
      change (map xmember_name ?l) with (xmember_name <$> l).
      by rewrite list_lookup_fmap, Hm.
Qed.

Lemma parse_hints_mjdata :
  exists g',
    @parse_hints header_mjdata macros_mjdata "mjxmacro.h" session_zero = (Ok tt, g') /\
    (NoDup (dict_keys (index_dict session_zero)) -> NoDup (dict_keys (index_dict g'))) /\
    (forall i member shape,
        (xmacro_members xmacro_pointers ++ xmacro_members xmacro_arena_pointers) !! i
          = Some member ->
        [[VInt 7]; [VStr "ncon"]] !! i = Some shape ->
        exists fields,
          dict_get (index_dict g') "mjdata" = Some fields /\
          dict_get fields (xmember_name member) = Some (VTuple shape)).
Proof.
  apply (@parse_hints_same_struct header_mjdata macros_mjdata "mjxmacro.h"
           xmacro_pointers xmacro_arena_pointers [[VInt 7]; [VStr "ncon"]]
           session_zero).
  - reflexivity.
  - reflexivity.
  - reflexivity.
  - reflexivity.
  - constructor; [reflexivity|]. constructor; [reflexivity|]. constructor.
  - apply NoDup_cons. split; [|apply NoDup_singleton].
    intros Hin. apply list_elem_of_singleton in Hin. discriminate Hin.
  - constructor; [reflexivity|]. constructor; [reflexivity|]. constructor.
Defined.

(** The tables after it: one [mjdata] entry with both fields. *)
Example parse_hints_mjdata_tables :
  @parse_hints header_mjdata macros_mjdata "mjxmacro.h" session_zero
  = (Ok tt,
     {| enums_dict := [];
        consts_dict := [("mjNONE", VInt 0); ("nq", VInt 7)];
        typedefs_dict := [];
        hints_dict := [("qpos", VTuple [VInt 7]); ("contact", VTuple [VStr "ncon"])];
        index_dict := [("mjdata", [("qpos", VTuple [VInt 7]);
                                   ("contact", VTuple [VStr "ncon"])])];
        classes := classes session_zero |}).
Proof. reflexivity. Qed.

(** A pointer table with one member whose name is new, for a struct
    the index does not have yet: the hint is recorded, and the index
    gets the struct with that one field. *)
Theorem parse_hints_pointer_member `{header_parsing} `{codegen_util}
    src x name dims shape g :
  concat (XMACRO src) = [XMacro x [XMember name dims]] ->
  is_macro_pointer x = true ->
  get_shape_tuple g dims true = Ok shape ->
  dict_get (hints_dict g) name = None ->
  dict_get (index_dict g) (macro_struct_name x) = None ->
  parse_hints src g
  = (Ok tt,
     mkBindingGenerator (enums_dict g) (consts_dict g) (typedefs_dict g)
       (hints_dict g ++ [(name, VTuple shape)])
       (index_dict g ++ [(macro_struct_name x, [(name, VTuple shape)])])
       (classes g)).
Proof.
  intros Hsrc Hptr Hshape Hnew Hstruct.
  unfold parse_hints, parse_hints_tokens.
  rewrite for_each_concat, Hsrc. cbn [for_each xmacro_members]. unfold bind.
  rewrite (parse_hint_run _ _ shape) by done. simpl.
  unfold record_hints, add_field, ensure_struct. simpl. rewrite Hstruct.
  do 2 f_equal.
  induction (index_dict g) as [|[k v] index IH]; simpl in *.
  - by rewrite String.eqb_refl.
  - destruct (String.eqb k (macro_struct_name x)); [done|]. by rewrite IH.
Qed.

Lemma parse_hints_qpos :
  @parse_hints header_qpos macros_mjdata "mjxmacro.h" session_zero
  = (Ok tt,
     {| enums_dict := [];
        consts_dict := [("mjNONE", VInt 0); ("nq", VInt 7)];
        typedefs_dict := [];
        hints_dict := [("qpos", VTuple [VInt 7])];
        index_dict := [("mjdata", [("qpos", VTuple [VInt 7])])];
        classes := classes session_zero |}).
Proof.
  apply (@parse_hints_pointer_member header_qpos macros_mjdata "mjxmacro.h"
           "MJDATA_POINTERS" "qpos" (OneSize (SizeStr "nq")) [VInt 7] session_zero);
    reflexivity.
Defined.

(** * Further properties of the resolver *)

(** ** When [resolve_size] and [get_shape_tuple] fail *)

Lemma forallb_resolve_name_parts g s :
  forallb isinstance_int (map (resolve_name g) (str_split "*" s)) = true <->
  Forall (fun part => exists d, resolve_size g (SizeStr part) = Ok d /\
                                isinstance_int d = true)
         (str_split "*" s).
Proof.
  rewrite forallb_forall, Forall_forall. split.
  - intros Hall part Hin. exists (resolve_name g part).
    split; [by apply (resolve_size_part g s)|].
    apply Hall, in_map. by apply list_elem_of_In.
  - intros Hall d Hd. apply in_map_iff in Hd as (part & <- & Hin).
    apply list_elem_of_In in Hin.
    destruct (Hall part Hin) as (d & Hd & Hint).
    rewrite (resolve_size_part g s part Hin) in Hd. by injection Hd as ->.
Qed.

(** The only way [resolve_size] fails: the token is a product whose
    factors all resolve to integers, and the failure is the
    [NameError] on [np]. *)
Theorem resolve_size_raises_iff g old_size e :
  resolve_size g old_size = Raise e <->
  e = NameError "np" /\
  exists s, old_size = SizeStr s /\
            str_contains "*" s = true /\
            Forall (fun part => exists d, resolve_size g (SizeStr part) = Ok d /\
                                          isinstance_int d = true)
                   (str_split "*" s).
Proof.
  destruct old_size as [n|s].
  - split; [done | by intros (_ & s & Hs & _)].
  - destruct (str_contains "*" s) eqn:Hstar.
    + unfold resolve_size at 1. rewrite resolve_size_rec_product by done. simpl.
      destruct (forallb isinstance_int _) eqn:Hall.
      * rewrite int_np_prod_raises. split.
        -- intros [= <-]. split; [done|]. exists s.
           split; [done|]. split; [done|]. by apply forallb_resolve_name_parts.
        -- by intros [-> _].
      * split; [done|]. intros (_ & s' & [= <-] & _ & Hparts).
        apply forallb_resolve_name_parts in Hparts. congruence.
    + unfold resolve_size. rewrite resolve_size_rec_name by done.
      split; [done|]. intros (_ & s' & [= <-] & Hs' & _). congruence.
Qed.

Lemma resolve_size_raise_is_NameError g old_size e :
  resolve_size g old_size = Raise e -> e = NameError "np".
Proof.
  unfold resolve_size. destruct old_size as [n|s]; [done|].
  destruct (str_contains "*" s) eqn:Hs.
  - rewrite resolve_size_rec_product by done. simpl.
    destruct (forallb _ _); [|done]. rewrite int_np_prod_raises. by intros [= <-].
  - by rewrite resolve_size_rec_name.
Qed.

Lemma mapR_Raise {A B} (f : A -> result B) l e :
  mapR f l = Raise e -> Exists (fun x => f x = Raise e) l.
Proof.
  induction l as [|x l IH]; simpl; [done|].
  destruct (f x) as [y|e'] eqn:Hx; simpl.
  - destruct (mapR f l) as [ys|e'']; simpl; [done|].
    intros [= ->]. right. by apply IH.
  - intros [= ->]. by left.
Qed.

Lemma mapR_Exists_Raise {A B} (f : A -> result B) l e :
  (forall x e', f x = Raise e' -> e' = e) ->
  Exists (fun x => f x = Raise e) l -> mapR f l = Raise e.
Proof.
  intros Hone. induction 1 as [x l Hx|x l _ IH]; simpl.
  - by rewrite Hx.
  - destruct (f x) as [y|e'] eqn:Hx; simpl.
    + by rewrite IH.
    + by rewrite (Hone x e' Hx).
Qed.

Lemma mapR_length {A B} (f : A -> result B) l ys :
  mapR f l = Ok ys -> length ys = length l.
Proof.
  revert ys. induction l as [|x l IH]; intros ys; simpl.
  - by intros [= <-].
  - destruct (f x); simpl; [|done].
    destruct (mapR f l) as [ys'|]; simpl; [|done].
    intros [= <-]. simpl. by rewrite (IH ys').
Qed.

Lemma get_shape_tuple_dims_list g old_size squeeze :
  get_shape_tuple g old_size squeeze
  = rbind (mapR (resolve_size g) (dims_list old_size))
          (fun shape => Ok (List.filter (fun d => negb squeeze || ne_one d) shape)).
Proof.
  unfold get_shape_tuple. destruct old_size as [ds|d]; simpl; [done|].
  by destruct (resolve_size g d).
Qed.

(** [get_shape_tuple] fails exactly when one of its dimensions does,
    with that same [NameError], whatever [squeeze] is. *)
Theorem get_shape_tuple_raises_iff g old_size squeeze e :
  get_shape_tuple g old_size squeeze = Raise e <->
  e = NameError "np" /\
  Exists (fun d => resolve_size g d = Raise (NameError "np")) (dims_list old_size).
Proof.
  rewrite get_shape_tuple_dims_list. split.
  - destruct (mapR (resolve_size g) (dims_list old_size)) as [shape|e'] eqn:Hmap;
      simpl; [done|].
    intros [= ->]. apply mapR_Raise in Hmap.
    assert (e = NameError "np") as ->.
    { apply Exists_exists in Hmap as (d & _ & Hd).
      by apply resolve_size_raise_is_NameError in Hd. }
    done.
  - intros [-> Hex]. rewrite (mapR_Exists_Raise _ _ (NameError "np")); [done| |done].
    intros d e' Hd. by apply resolve_size_raise_is_NameError in Hd.
Qed.

(** A squeezed shape is the full shape without its ones: the full
    shape has one entry per dimension, the squeezed one has no [1]
    left. *)
Theorem get_shape_tuple_squeezed g old_size shape :
  get_shape_tuple g old_size true = Ok shape ->
  Forall (fun d => d <> VInt 1) shape /\
  exists full,
    get_shape_tuple g old_size false = Ok full /\
    length full = length (dims_list old_size) /\
    shape = List.filter ne_one full.
Proof.
  rewrite !get_shape_tuple_dims_list.
  destruct (mapR (resolve_size g) (dims_list old_size)) as [full|] eqn:Hmap;
    simpl; [|done].
  intros [= <-]. split.
  - apply Forall_forall. intros d Hd.
    apply list_elem_of_In, filter_In in Hd as [_ Hd]. by intros ->.
  - exists full. split; [|split; [by apply mapR_length in Hmap | done]].
    f_equal. clear Hmap.
    induction full as [|d full IH]; simpl; [done | f_equal; exact IH].
Qed.

Lemma get_shape_tuple_squeezed_1_4_1 :
  Forall (fun d => d <> VInt 1) [VInt 4] /\
  exists full,
    get_shape_tuple session_A (ParseResults [SizeStr "1"; SizeStr "4"; SizeInt 1]) false
      = Ok full /\
    length full = length (dims_list (ParseResults [SizeStr "1"; SizeStr "4"; SizeInt 1])) /\
    [VInt 4] = List.filter ne_one full.
Proof.
  apply (get_shape_tuple_squeezed session_A
           (ParseResults [SizeStr "1"; SizeStr "4"; SizeInt 1]) [VInt 4]).
  reflexivity.
Defined.

(** ** What a name resolves to *)

(** A token that is no key of the combined view: a decimal literal
    other than zero is that integer; the literal zero and every other
    token come back as they are. *)
Theorem resolve_size_not_a_key g s :
  str_contains "*" s = false ->
  dict_get (get_consts_and_enums g) s = None ->
  resolve_size g (SizeStr s)
  = Ok (match py_int s with
        | Ok n => if n =? 0 then VStr s else VInt n
        | Raise _ => VStr s
        end).
Proof.
  intros Hstar Hkey. unfold resolve_size.
  rewrite resolve_size_rec_name by done. unfold resolve_name.
  rewrite recursive_dict_lookup_absent by done. simpl.
  destruct (py_int s) as [n|]; unfold py_or; simpl.
  - by destruct (n =? 0).
  - by destruct (String.eqb s "").
Qed.

Lemma resolve_size_literals :
  resolve_size session_A (SizeStr "12") = Ok (VInt 12) /\
  resolve_size session_A (SizeStr "0") = Ok (VStr "0") /\
  resolve_size session_A (SizeStr "ncon") = Ok (VStr "ncon").
Proof.
  split; [|split].
  - exact (resolve_size_not_a_key session_A "12" eq_refl eq_refl).
  - exact (resolve_size_not_a_key session_A "0" eq_refl eq_refl).
  - exact (resolve_size_not_a_key session_A "ncon" eq_refl eq_refl).
Defined.

Lemma resolve_name_int g s n :
  dict_get (get_consts_and_enums g) s = Some (VInt n) ->
  n <> 0 ->
  resolve_name g s = VInt n.
Proof.
  intros Hkey Hn. unfold resolve_name.
  assert (recursive_dict_lookup (VStr s) (get_consts_and_enums g) = VInt n) as ->.
  { unfold recursive_dict_lookup.
    destruct (get_consts_and_enums g) as [|kv d]; [done|].
    cbn [length chase value_get]. rewrite Hkey. by destruct (length d). }
  unfold py_or. simpl. by apply Z.eqb_neq in Hn as ->.
Qed.

(** A name that the combined view maps to an integer other than zero
    resolves to that integer. *)
Theorem resolve_size_constant g s n :
  str_contains "*" s = false ->
  dict_get (get_consts_and_enums g) s = Some (VInt n) ->
  n <> 0 ->
  resolve_size g (SizeStr s) = Ok (VInt n).
Proof.
  intros Hstar Hkey Hn. unfold resolve_size.
  rewrite resolve_size_rec_name by done. by rewrite (resolve_name_int g s n).
Qed.

Lemma resolve_size_nq :
  resolve_size session_zero (SizeStr "nq") = Ok (VInt 7).
Proof.
  apply resolve_size_constant; [reflexivity | reflexivity | discriminate].
Defined.

(** ** The names of the combined view *)

Lemma dict_keys_setitem {V} (d : dict V) k v k' :
  k' ∈ dict_keys (dict_setitem d k v) <-> k' ∈ dict_keys d \/ k' = k.
Proof.
  induction d as [|[k0 v0] d IH]; simpl.
  - rewrite list_elem_of_singleton. split; [by right | intros [H|H]; [|done]].
    by apply elem_of_nil in H.
  - destruct (String.eqb k0 k) eqn:E; simpl.
    + apply String.eqb_eq in E as ->. rewrite elem_of_cons.
      split; [by left | intros [H| ->]; [done | by left]].
    + rewrite !elem_of_cons, IH. tauto.
Qed.

Lemma dict_keys_update {V} (d e : dict V) k :
  k ∈ dict_keys (dict_update d e) <-> k ∈ dict_keys d \/ k ∈ dict_keys e.
Proof.
  unfold dict_update. revert d.
  induction e as [|[k0 v0] e IH]; intros d; simpl.
  - split; [by left | intros [H|H]; [done|]]. by apply elem_of_nil in H.
  - rewrite IH, dict_keys_setitem, elem_of_cons. simpl. tauto.
Qed.

(** A name is in the combined view exactly when it is a constant or a
    member of some enum. *)
Theorem view_names g k :
  k ∈ dict_keys (get_consts_and_enums g) <->
  k ∈ dict_keys (consts_dict g) \/
  exists enum, enum ∈ dict_values (enums_dict g) /\ k ∈ dict_keys enum.
Proof.
  unfold get_consts_and_enums.
  generalize (consts_dict g) as d. generalize (dict_values (enums_dict g)) as enums.
  induction enums as [|e enums IH]; intros d; simpl.
  - split; [by left | intros [H|(e & He & _)]; [done|]]. by apply elem_of_nil in He.
  - rewrite IH, dict_keys_update. split.
    + intros [[H|H]|(e' & He' & Hk)].
      * by left.
      * right. exists e. split; [apply elem_of_cons; by left | done].
      * right. exists e'. split; [apply elem_of_cons; by right | done].
    + intros [H|(e' & He' & Hk)].
      * left. by left.
      * apply elem_of_cons in He' as [->|He'].
        -- left. by right.
        -- right. by exists e'.
Qed.

Lemma view_constant_nq :
  dict_get (get_consts_and_enums session_shadow) "nq"
  = dict_get (consts_dict session_shadow) "nq".
Proof.
  apply view_constant. constructor; [reflexivity | constructor].
Defined.

(** * Further properties of the parsers *)

(** ** [parse_enums] *)

Lemma enum_members_loop_keeps l : forall members value members',
  enum_members_loop members value l = Ok members' ->
  forall k v, dict_get members k = Some v -> dict_get members' k = Some v.
Proof.
  induction l as [|m l IH]; intros ms value ms'; simpl.
  - by intros [= <-].
  - destruct (next_enum_value value m) as [value'|]; simpl; [|done].
    unfold UniqueOrderedDict_setitem.
    destruct (dict_has ms (member_name m)); simpl; [done|].
    intros Hl k v Hk. eapply IH; [exact Hl|].
    by rewrite dict_get_app, Hk.
Qed.

Lemma enum_members_loop_keys l : forall members value members',
  enum_members_loop members value l = Ok members' ->
  dict_keys members' = dict_keys members ++ map member_name l.
Proof.
  induction l as [|m l IH]; intros ms value ms'; simpl.
  - intros [= <-]. by rewrite app_nil_r.
  - destruct (next_enum_value value m) as [value'|]; simpl; [|done].
    destruct (UniqueOrderedDict_setitem ms (member_name m) (VInt value'))
      as [ms1|] eqn:Hset; simpl; [|done].
    intros Hl. rewrite (IH _ _ _ Hl).
    rewrite (UniqueOrderedDict_setitem_keys _ _ _ _ Hset).
    by rewrite <- app_assoc.
Qed.

Lemma enum_members_loop_NoDup l : forall members value members',
  enum_members_loop members value l = Ok members' ->
  NoDup (dict_keys members) -> NoDup (dict_keys members').
Proof.
  induction l as [|m l IH]; intros ms value ms'; simpl.
  - by intros [= <-].
  - destruct (next_enum_value value m) as [value'|]; simpl; [|done].
    destruct (UniqueOrderedDict_setitem ms (member_name m) (VInt value'))
      as [ms1|] eqn:Hset; simpl; [|done].
    intros Hl Hnd. apply (IH _ _ _ Hl).
    rewrite (UniqueOrderedDict_setitem_keys _ _ _ _ Hset).
    unfold UniqueOrderedDict_setitem, dict_has in Hset.
    destruct (dict_get ms (member_name m)) eqn:Hk; [done|].
    apply NoDup_app. split; [done|]. split; [|apply NoDup_singleton].
    intros k Hin Hk'. apply list_elem_of_singleton in Hk' as ->.
    by apply dict_get_None_keys in Hk.
Qed.

(** An enum block is stored whole or not at all.  When [parse_enum]
    fails the generator is as before.  When it returns, the block is
    stored under its name by one write to the enums table (a new name
    goes last; a name that is taken can only be written when the table
    is a plain dictionary, and then the entry is replaced in place);
    the keys of what is stored are the names of the block's members in
    declaration order, all different; nothing else has changed. *)
Theorem parse_enum_all_or_nothing enum g :
  match parse_enum enum g with
  | (Raise _, g') => g' = g
  | (Ok _, g') =>
      exists members,
        g' = mkBindingGenerator
               (dict_setitem (enums_dict g) (enum_name enum) members)
               (consts_dict g) (typedefs_dict g) (hints_dict g) (index_dict g)
               (classes g) /\
        dict_keys members = map member_name (enum_members enum) /\
        NoDup (map member_name (enum_members enum)) /\
        (enums_class (classes g) = UniqueOrderedDict_class ->
         dict_get (enums_dict g) (enum_name enum) = None)
  end.
Proof.
  unfold parse_enum, bind, lift.
  destruct (enum_members_loop [] 0 (enum_members enum)) as [members|] eqn:Hloop;
    [|done].
  unfold set_enum.
  destruct (mapping_setitem _ (enums_dict g) (enum_name enum) members)
    as [d|] eqn:Hset; [|done].
  exists members.
  pose proof (enum_members_loop_keys _ _ _ _ Hloop) as Hkeys. simpl in Hkeys.
  split; [|split; [done|split]].
  - destruct (enums_class (classes g)).
    + simpl in Hset. by injection Hset as <-.
    + apply mapping_setitem_unique in Hset as [Hnew ->].
      by rewrite dict_setitem_fresh.
  - rewrite <- Hkeys. apply (enum_members_loop_NoDup _ _ _ _ Hloop). constructor.
  - intros Hclass. rewrite Hclass in Hset.
    by apply mapping_setitem_unique in Hset as [Hnew _].
Qed.

(** A member without value or shift gets one more than the member
    declared just before it. *)
Theorem enum_implicit_follows_previous l : forall members0 value0 members i a b,
  enum_members_loop members0 value0 l = Ok members ->
  l !! i = Some a ->
  l !! S i = Some b ->
  str_truthy (bit_lshift_a b) = false ->
  str_truthy (member_value b) = false ->
  exists va,
    dict_get members (member_name a) = Some (VInt va) /\
    dict_get members (member_name b) = Some (VInt (va + 1)).
Proof.
  induction l as [|m l IH]; intros ms value members i a b Hloop Ha Hb Hs Hv;
    [done|].
  simpl in Hloop.
  destruct (next_enum_value value m) as [vm|] eqn:Hm; simpl in Hloop; [|done].
  destruct (UniqueOrderedDict_setitem ms (member_name m) (VInt vm))
    as [ms1|] eqn:Hset; simpl in Hloop; [|done].
  destruct i as [|i]; simpl in Ha, Hb.
  - injection Ha as ->. destruct l as [|b' l]; [done|]. injection Hb as ->.
    simpl in Hloop. rewrite next_enum_value_implicit in Hloop by done.
    simpl in Hloop.
    destruct (UniqueOrderedDict_setitem ms1 (member_name b) (VInt (vm + 1)))
      as [ms2|] eqn:Hset2; simpl in Hloop; [|done].
    unfold UniqueOrderedDict_setitem, dict_has in Hset, Hset2.
    destruct (dict_get ms (member_name a)) eqn:Hga; [done|]. injection Hset as <-.
    destruct (dict_get (ms ++ [(member_name a, VInt vm)]) (member_name b)) eqn:Hgb;
      [done|]. injection Hset2 as <-.
    exists vm. split.
    + eapply enum_members_loop_keeps; [exact Hloop|].
      rewrite !dict_get_app, Hga. simpl. by rewrite String.eqb_refl.
    + eapply enum_members_loop_keeps; [exact Hloop|].
      rewrite dict_get_app, Hgb. simpl. by rewrite String.eqb_refl.
  - by eapply IH.
Qed.

(** [parse_enums] writes to the enums table only.  The names that
    were in the table stay, in their places; when the table is a
    [UniqueOrderedDict] the entries themselves stay as they were (the
    table is only appended to).  The other four tables are not
    touched.  All this holds also when the run ends in an exception. *)
Theorem parse_enums_frame `{header_parsing} src g :
  let g' := snd (parse_enums src g) in
  dict_keys (enums_dict g) `prefix_of` dict_keys (enums_dict g') /\
  (enums_class (classes g) = UniqueOrderedDict_class ->
   enums_dict g `prefix_of` enums_dict g') /\
  consts_dict g' = consts_dict g /\
  typedefs_dict g' = typedefs_dict g /\
  hints_dict g' = hints_dict g /\
  index_dict g' = index_dict g /\
  classes g' = classes g.
Proof.
  unfold parse_enums, parse_enums_tokens. rewrite for_each_concat.
  apply (for_each_keeps
           (fun g g' =>
              dict_keys (enums_dict g) `prefix_of` dict_keys (enums_dict g') /\
              (enums_class (classes g) = UniqueOrderedDict_class ->
               enums_dict g `prefix_of` enums_dict g') /\
              consts_dict g' = consts_dict g /\
              typedefs_dict g' = typedefs_dict g /\
              hints_dict g' = hints_dict g /\
              index_dict g' = index_dict g /\
              classes g' = classes g)).
  - done.
  - intros g1 g2 g3 (Hk & He & Hc & Ht & Hh & Hi & Hcl)
                    (Hk' & He' & Hc' & Ht' & Hh' & Hi' & Hcl').
    split; [by etrans|]. split.
    + intros Hu. etrans; [by apply He|]. apply He'. by rewrite Hcl.
    + repeat split; congruence.
  - intros enum g0 _. unfold parse_enum, bind, lift.
    destruct (enum_members_loop [] 0 (enum_members enum)) as [members|]; [|done].
    unfold set_enum.
    destruct (mapping_setitem _ (enums_dict g0) (enum_name enum) members)
      as [d|] eqn:Hset; simpl; [|done].
    split; [by apply (mapping_setitem_keys _ _ _ _ _ Hset)|].
    split; [|done]. intros Hu. rewrite Hu in Hset.
    apply mapping_setitem_unique in Hset as [_ ->]. by apply prefix_app_r.
Qed.

(** ** [parse_hints] *)

Section ParseHintsFacts.
Context `{header_parsing} `{codegen_util}.

(** The body of the loop, written out. *)
Lemma parse_hint_unfold x member g :
  parse_hint x member g
  = match get_shape_tuple g (xmember_dims member) true with
    | Raise e => (Raise e, g)
    | Ok shape =>
        match mapping_setitem (hints_class (classes g)) (hints_dict g)
                              (xmember_name member) (VTuple shape) with
        | Raise e => (Raise e, g)
        | Ok hints =>
            (Ok tt,
             mkBindingGenerator (enums_dict g) (consts_dict g) (typedefs_dict g)
               hints
               (if is_macro_pointer (xmacro_name x)
                then add_field (macro_struct_name (xmacro_name x))
                               (xmember_name member) (VTuple shape) (index_dict g)
                else index_dict g)
               (classes g))
        end
    end.
Proof.
  unfold parse_hint, bind.
  destruct (get_shape_tuple g (xmember_dims member) true) as [shape|]; [|done].
  unfold set_hint.
  destruct (mapping_setitem _ (hints_dict g) (xmember_name member) (VTuple shape));
    [|done].
  destruct (is_macro_pointer (xmacro_name x)); [|done].
  by rewrite index_add_run.
Qed.

(** A member is recorded whole or not at all.  [parse_hint] fails
    when the shape does not resolve, or when the hints table is a
    [UniqueOrderedDict] and the member's name already has a hint; then
    neither table has changed, so a name that is rejected as a hint
    never reaches the index.  When it returns, the hint has been
    written under the member's name (last when the name is new; a
    taken name can only be written in a plain dictionary, in place). *)
Theorem parse_hint_all_or_nothing x member g :
  match parse_hint x member g with
  | (Raise e, g') =>
      g' = g /\
      (get_shape_tuple g (xmember_dims member) true = Raise e \/
       e = DuplicateKeyError (xmember_name member) /\
       dict_has (hints_dict g) (xmember_name member) = true /\
       hints_class (classes g) = UniqueOrderedDict_class)
  | (Ok _, g') =>
      exists shape,
        get_shape_tuple g (xmember_dims member) true = Ok shape /\
        hints_dict g'
        = dict_setitem (hints_dict g) (xmember_name member) (VTuple shape) /\
        (hints_class (classes g) = UniqueOrderedDict_class ->
         dict_get (hints_dict g) (xmember_name member) = None)
  end.
Proof.
  rewrite parse_hint_unfold.
  destruct (get_shape_tuple g (xmember_dims member) true) as [shape|e];
    [|by split; [|left]].
  destruct (hints_class (classes g)); simpl.
  - exists shape. by repeat split.
  - unfold UniqueOrderedDict_setitem, dict_has.
    destruct (dict_get (hints_dict g) (xmember_name member)) eqn:Hk.
    + split; [done|]. right. by repeat split.
    + exists shape. split; [done|]. split; [|done]. simpl.
      by rewrite dict_setitem_fresh.
Qed.

Lemma dict_keys_add_field struct_name name shape index :
  dict_keys index `prefix_of` dict_keys (add_field struct_name name shape index).
Proof.
  unfold add_field, ensure_struct. rewrite dict_keys_modify.
  destruct (dict_get index struct_name); [done|].
  unfold dict_keys. rewrite map_app. by apply prefix_app_r.
Qed.

(** [parse_hints] leaves enums, constants and typedefs alone, so the
    combined view is the same all through the pass.  The names in the
    hints table and the struct names of the index keep their places;
    when the hints table is a [UniqueOrderedDict] its entries stay as
    they were (the table is only appended to).  All this holds also
    when the run ends in an exception. *)
Theorem parse_hints_frame src g :
  let g' := snd (parse_hints src g) in
  enums_dict g' = enums_dict g /\
  consts_dict g' = consts_dict g /\
  typedefs_dict g' = typedefs_dict g /\
  classes g' = classes g /\
  dict_keys (hints_dict g) `prefix_of` dict_keys (hints_dict g') /\
  (hints_class (classes g) = UniqueOrderedDict_class ->
   hints_dict g `prefix_of` hints_dict g') /\
  dict_keys (index_dict g) `prefix_of` dict_keys (index_dict g').
Proof.
  unfold parse_hints, parse_hints_tokens. rewrite for_each_concat.
  set (R := fun g g' : BindingGenerator =>
              enums_dict g' = enums_dict g /\
              consts_dict g' = consts_dict g /\
              typedefs_dict g' = typedefs_dict g /\
              classes g' = classes g /\
              dict_keys (hints_dict g) `prefix_of` dict_keys (hints_dict g') /\
              (hints_class (classes g) = UniqueOrderedDict_class ->
               hints_dict g `prefix_of` hints_dict g') /\
              dict_keys (index_dict g) `prefix_of` dict_keys (index_dict g')).
  assert (forall g, R g g) as Hrefl by done.
  assert (forall g1 g2 g3, R g1 g2 -> R g2 g3 -> R g1 g3) as Htrans.
  { intros g1 g2 g3 (He & Hc & Ht & Hcl & Hk & Hh & Hi)
                    (He' & Hc' & Ht' & Hcl' & Hk' & Hh' & Hi').
    unfold R. repeat split; try congruence; try (by etrans).
    intros Hu. etrans; [by apply Hh|]. apply Hh'. by rewrite Hcl. }
  apply (for_each_keeps R); [done..|].
  intros x g0 _. apply (for_each_keeps R); [done..|].
  intros member g1 _. rewrite parse_hint_unfold.
  destruct (get_shape_tuple g1 (xmember_dims member) true) as [shape|]; [|done].
  destruct (mapping_setitem _ (hints_dict g1) (xmember_name member) (VTuple shape))
    as [hints|] eqn:Hset; [|done].
  unfold R. simpl. repeat split.
  - by apply (mapping_setitem_keys _ _ _ _ _ Hset).
  - intros Hu. rewrite Hu in Hset.
    apply mapping_setitem_unique in Hset as [_ ->]. by apply prefix_app_r.
  - destruct (is_macro_pointer (xmacro_name x)); [apply dict_keys_add_field | done].
Qed.

(** When none of the tables in the text is a pointer table, the index
    is not touched. *)
Theorem parse_hints_no_pointer_table src g :
  Forall (fun x => is_macro_pointer (xmacro_name x) = false) (concat (XMACRO src)) ->
  index_dict (snd (parse_hints src g)) = index_dict g.
Proof.
  intros Hnone. unfold parse_hints, parse_hints_tokens. rewrite for_each_concat.
  rewrite Forall_forall in Hnone.
  apply (for_each_keeps (fun g g' => index_dict g' = index_dict g));
    [done | congruence |].
  intros x g0 Hx.
  apply (for_each_keeps (fun g g' => index_dict g' = index_dict g));
    [done | congruence |].
  intros member g1 _. rewrite parse_hint_unfold.
  destruct (get_shape_tuple g1 (xmember_dims member) true); [|done].
  destruct (mapping_setitem _ (hints_dict g1) (xmember_name member) _); [|done].
  simpl. by rewrite (Hnone x Hx).
Qed.

End ParseHintsFacts.

Lemma parse_hints_scalars :
  index_dict (snd (@parse_hints header_scalars macros_mjdata "mjxmacro.h" session_zero))
  = index_dict session_zero.
Proof.
  apply (@parse_hints_no_pointer_table header_scalars macros_mjdata).
  constructor; [reflexivity | constructor].
Defined.

Lemma enum_implicit_follows_previous_disable :
  exists va,
    dict_get [("mjDSBL_CONSTRAINT", VInt 1); ("mjDSBL_EQUALITY", VInt 2);
              ("mjNDISABLE", VInt 3)] "mjDSBL_EQUALITY" = Some (VInt va) /\
    dict_get [("mjDSBL_CONSTRAINT", VInt 1); ("mjDSBL_EQUALITY", VInt 2);
              ("mjNDISABLE", VInt 3)] "mjNDISABLE" = Some (VInt (va + 1)).
Proof.
  apply (enum_implicit_follows_previous (enum_members enum_disable) [] 0
           [("mjDSBL_CONSTRAINT", VInt 1); ("mjDSBL_EQUALITY", VInt 2);
            ("mjNDISABLE", VInt 3)]
           1 (EnumMember "mjDSBL_EQUALITY" "1" "1" "")
           (EnumMember "mjNDISABLE" "" "" ""));
    reflexivity.
Defined.

(** ** [parse_consts_typedefs] *)

Lemma parse_consts_typedefs_flat `{header_parsing} src g :
  parse_consts_typedefs src g
  = _recurse_into_conditionals (concat (COND_DECL_or_UNCOND_DECL src)) g.
Proof.
  unfold parse_consts_typedefs, _recurse_into_conditionals.
  apply for_each_concat.
Qed.

(** [parse_consts_typedefs] writes to the constants and the typedefs
    only.  The names that were there stay, in their places; a table
    that is a [UniqueOrderedDict] is only appended to, so its entries
    stay as they were; every new name is that of a declaration of the
    text; enums, hints and index are not touched.  All this holds also
    when the run ends in an exception. *)
Theorem parse_consts_typedefs_frame `{header_parsing} src g :
  let g' := snd (parse_consts_typedefs src g) in
  declarations_appended g g' /\
  only_declares (declared_names (concat (COND_DECL_or_UNCOND_DECL src))) g g'.
Proof.
  simpl. rewrite parse_consts_typedefs_flat. split.
  - apply recurse_appended.
  - apply recurse_only_declares.
Qed.

(** ** A declaration and its later uses *)

Lemma set_const_fresh name v g :
  dict_get (consts_dict g) name = None ->
  set_const name v g
  = (Ok tt, mkBindingGenerator (enums_dict g) (consts_dict g ++ [(name, v)])
              (typedefs_dict g) (hints_dict g) (index_dict g) (classes g)).
Proof.
  intros Hnew. unfold set_const. by rewrite mapping_setitem_fresh.
Qed.

Lemma view_after_set_const name v g :
  dict_get (consts_dict g) name = None ->
  Forall (fun e => dict_get e name = None) (dict_values (enums_dict g)) ->
  dict_get (get_consts_and_enums
              (mkBindingGenerator (enums_dict g) (consts_dict g ++ [(name, v)])
                 (typedefs_dict g) (hints_dict g) (index_dict g) (classes g))) name
  = Some v.
Proof.
  intros Hnew Henums. unfold get_consts_and_enums. simpl.
  rewrite view_fold_skip by done.
  rewrite dict_get_app, Hnew. simpl. by rewrite String.eqb_refl.
Qed.

(** [#define NAME] followed by [#ifdef NAME]: when the name is new and
    no enum member has it, the flag is recorded as [True] and the
    conditional that follows takes its [if_true] branch. *)
Theorem define_flag_then_ifdef name t1 f1 if_true if_false typename' name' value' rest g :
  str_truthy name = true ->
  dict_get (consts_dict g) name = None ->
  Forall (fun e => dict_get e name = None) (dict_values (enums_dict g)) ->
  _recurse_into_conditionals
    (Token "" t1 f1 "" name "" ::
     Token name if_true if_false typename' name' value' :: rest) g
  = (set_const name (VBool true) ;;
     _recurse_into_conditionals (if_true ++ rest))%gen g.
Proof.
  intros Hname Hnew Henums.
  rewrite recurse_cons, recurse_token_leaf by done.
  change (str_truthy "") with false. cbv iota.
  unfold bind. rewrite set_const_fresh by done.
  rewrite recurse_conditional_splice by done.
  unfold condition. by rewrite view_after_set_const.
Qed.

(** [#define NAME value] with an integer value followed by
    [#ifdef NAME]: the conditional takes [if_true] when the value is
    not zero and [if_false] when it is zero. *)
Theorem define_value_then_ifdef name value n t1 f1 if_true if_false
    typename' name' value' rest g :
  str_truthy name = true ->
  py_int value = Ok n ->
  dict_get (consts_dict g) name = None ->
  Forall (fun e => dict_get e name = None) (dict_values (enums_dict g)) ->
  _recurse_into_conditionals
    (Token "" t1 f1 "" name value ::
     Token name if_true if_false typename' name' value' :: rest) g
  = (set_const name (VInt n) ;;
     _recurse_into_conditionals
       ((if n =? 0 then if_false else if_true) ++ rest))%gen g.
Proof.
  intros Hname Hvalue Hnew Henums.
  assert (str_truthy value = true) as Hv by (by destruct value).
  rewrite recurse_cons, recurse_token_leaf by done.
  change (str_truthy "") with false. cbv iota. rewrite Hv.
  cbn [try_coerce_to_num]. rewrite Hvalue.
  unfold bind. rewrite set_const_fresh by done.
  rewrite recurse_conditional_splice by done.
  unfold condition. rewrite view_after_set_const by done. simpl.
  by destruct (n =? 0).
Qed.

Lemma define_flag_then_ifdef_FOO :
  _recurse_into_conditionals
    [Token "" [] [] "" "FOO" ""; cond_FOO] (__init__ None None None None None)
  = (set_const "FOO" (VBool true) ;;
     _recurse_into_conditionals ([Token "" [] [] "double" "mjtNum" ""] ++ []))%gen
      (__init__ None None None None None).
Proof.
  apply (define_flag_then_ifdef "FOO" [] [] [Token "" [] [] "double" "mjtNum" ""]
           [Token "" [] [] "" "mjMINVAL" "5"] "" "" "" []
           (__init__ None None None None None));
    [reflexivity | reflexivity | constructor].
Defined.

Lemma define_value_then_ifdef_zero :
  _recurse_into_conditionals
    [Token "" [] [] "" "FOO" "0"; cond_FOO] (__init__ None None None None None)
  = (set_const "FOO" (VInt 0) ;;
     _recurse_into_conditionals
       ((if 0 =? 0 then [Token "" [] [] "" "mjMINVAL" "5"]
         else [Token "" [] [] "double" "mjtNum" ""]) ++ []))%gen
      (__init__ None None None None None).
Proof.
  apply (define_value_then_ifdef "FOO" "0" 0 [] [] [Token "" [] [] "double" "mjtNum" ""]
           [Token "" [] [] "" "mjMINVAL" "5"] "" "" "" []
           (__init__ None None None None None));
    [reflexivity | reflexivity | reflexivity | constructor].
Defined.

(** The tables after [#define FOO 0] and the conditional on [FOO]:
    the constant of [if_false], no typedef. *)
Example define_zero_then_ifdef_tables :
  _recurse_into_conditionals
    [Token "" [] [] "" "FOO" "0"; cond_FOO] (__init__ None None None None None)
  = (Ok tt,
     {| enums_dict := []; consts_dict := [("FOO", VInt 0); ("mjMINVAL", VInt 5)];
        typedefs_dict := []; hints_dict := []; index_dict := [];
        classes := default_classes |}).
Proof. reflexivity. Qed.

Lemma recursive_dict_lookup_one_level d a b :
  dict_get d a = Some (VStr b) ->
  dict_get d b = None ->
  recursive_dict_lookup (VStr a) d = VStr b.
Proof.
  intros Ha Hb. unfold recursive_dict_lookup.
  destruct d as [|kv d]; [done|].
  cbn [length chase value_get]. rewrite Ha.
  destruct (length d); cbn [chase value_get]; [done | by rewrite Hb].
Qed.

(** A typedef and its later use: after [typedef typename name], with
    [name] new and [typename] no typedef itself, [resolve_typename]
    of [name] is what the table of C type names has for [typename],
    or [typename] when the table does not have it. *)
Theorem typedef_then_resolve `{header_parsing} typename name value t1 f1 g :
  str_truthy typename = true ->
  dict_get (typedefs_dict g) name = None ->
  dict_get (typedefs_dict g) typename = None ->
  typename <> name ->
  fst (resolve_typename (snd (recurse_token (Token "" t1 f1 typename name value) g))
                        name)
  = VStr (default typename (dict_get C_TO_CTYPES typename)).
Proof.
  intros Hty Hnew Hbase Hne.
  rewrite recurse_token_leaf by done. rewrite Hty.
  unfold set_typedef. rewrite mapping_setitem_fresh by done. simpl.
  unfold resolve_typename. simpl.
  rewrite (recursive_dict_lookup_one_level _ name typename).
  - unfold ctypes_get. by destruct (dict_get C_TO_CTYPES typename).
  - rewrite dict_get_app, Hnew. simpl. by rewrite String.eqb_refl.
  - rewrite dict_get_app, Hbase. simpl.
    destruct (String.eqb name typename) eqn:E; [|done].
    apply String.eqb_eq in E. congruence.
Qed.

Lemma typedef_mjtNum_then_resolve :
  fst (@resolve_typename header_scalars
         (snd (recurse_token (Token "" [] [] "double" "mjtNum" "")
                             (__init__ None None None None None)))
         "mjtNum")
  = VStr (default "double" (dict_get (@C_TO_CTYPES header_scalars) "double")).
Proof.
  apply (@typedef_then_resolve header_scalars "double" "mjtNum" "" [] []
           (__init__ None None None None None));
    [reflexivity | reflexivity | reflexivity | discriminate].
Defined.

(** An enum block and its later use.  The enums table is a
    [UniqueOrderedDict], or the block's name is new to it: once
    [parse_enum] has stored the block (last in the table), a member
    recorded with an integer other than zero resolves to that integer
    as an array size, whatever the constants and the earlier enums
    hold under its name. *)
Theorem enum_member_resolves enum g members k n :
  enums_class (classes g) = UniqueOrderedDict_class \/
  dict_get (enums_dict g) (enum_name enum) = None ->
  fst (parse_enum enum g) = Ok tt ->
  dict_get (enums_dict (snd (parse_enum enum g))) (enum_name enum) = Some members ->
  dict_get members k = Some (VInt n) ->
  n <> 0 ->
  str_contains "*" k = false ->
  resolve_size (snd (parse_enum enum g)) (SizeStr k) = Ok (VInt n).
Proof.
  intros Hlast. unfold parse_enum, bind, lift.
  destruct (enum_members_loop [] 0 (enum_members enum)) as [ms|] eqn:Hloop;
    [|done].
  unfold set_enum.
  destruct (mapping_setitem _ (enums_dict g) (enum_name enum) ms) as [d|] eqn:Hset;
    [|done].
  assert (dict_get (enums_dict g) (enum_name enum) = None) as Hname.
  { destruct Hlast as [Hu|Hnew]; [|done]. rewrite Hu in Hset.
    by apply mapping_setitem_unique in Hset as [Hnew _]. }
  rewrite mapping_setitem_fresh in Hset by done. injection Hset as <-.
  simpl. intros _ Hms Hk Hn Hstar.
  rewrite dict_get_app, Hname in Hms. simpl in Hms.
  rewrite String.eqb_refl in Hms. injection Hms as ->.
  unfold resolve_size. rewrite resolve_size_rec_name by done.
  rewrite (resolve_name_int _ _ n); [done| |done].
  apply (view_enum_member_wins _ (dict_values (enums_dict g)) members []).
  - unfold dict_values. simpl. by rewrite map_app.
  - apply (enum_members_loop_NoDup _ _ _ _ Hloop). constructor.
  - done.
  - constructor.
Qed.

Lemma enum_member_resolves_disable :
  resolve_size (snd (parse_enum enum_disable session_zero)) (SizeStr "mjNDISABLE")
  = Ok (VInt 3).
Proof.
  apply (enum_member_resolves enum_disable session_zero
           [("mjDSBL_CONSTRAINT", VInt 1); ("mjDSBL_EQUALITY", VInt 2);
            ("mjNDISABLE", VInt 3)]);
    [left; reflexivity | reflexivity | reflexivity | reflexivity | discriminate
    | reflexivity].
Defined.

(** A constant and its later use: after [#define name value] with an
    integer value other than zero, [name] new and no enum member of
    that name, [name] resolves to the value as an array size. *)
Theorem define_value_then_resolve_size name value n t1 f1 g :
  py_int value = Ok n ->
  n <> 0 ->
  dict_get (consts_dict g) name = None ->
  Forall (fun e => dict_get e name = None) (dict_values (enums_dict g)) ->
  str_contains "*" name = false ->
  resolve_size (snd (recurse_token (Token "" t1 f1 "" name value) g)) (SizeStr name)
  = Ok (VInt n).
Proof.
  intros Hvalue Hn Hnew Henums Hstar.
  assert (str_truthy value = true) as Hv by (by destruct value).
  rewrite recurse_token_leaf by done.
  change (str_truthy "") with false. cbv iota. rewrite Hv.
  cbn [try_coerce_to_num]. rewrite Hvalue.
  rewrite set_const_fresh by done. simpl.
  unfold resolve_size. rewrite resolve_size_rec_name by done.
  rewrite (resolve_name_int _ _ n); [done| |done].
  by apply view_after_set_const.
Qed.

Lemma define_nv_then_resolve_size :
  resolve_size (snd (recurse_token (Token "" [] [] "" "nv" "6") session_zero))
               (SizeStr "nv")
  = Ok (VInt 6).
Proof.
  apply (define_value_then_resolve_size "nv" "6" 6 [] [] session_zero);
    [reflexivity | discriminate | reflexivity | constructor | reflexivity].
Defined.

(** * Duplicate keys, table by table *)

Section DuplicateKeys.
Context `{codegen_util}.

(** C4, as the code has it.  A table that is a [UniqueOrderedDict],
    as every table the generator makes itself is, rejects a key it
    already has: where the code writes [table[k] = v] to the enums,
    the constants, the typedefs or the hints, and to the members of an
    enum block, the write raises the duplicate-key error and the
    generator is as it was before the declaration, so the entry under
    the key is the old one.  The index is written through
    [setdefault] only: a struct name that is present raises nothing,
    and its entry takes the new field. *)
Theorem duplicate_key_rejected g k :
  (enums_class (classes g) = UniqueOrderedDict_class ->
   forall enum members old,
     enum_name enum = k ->
     enum_members_loop [] 0 (enum_members enum) = Ok members ->
     dict_get (enums_dict g) k = Some old ->
     parse_enum enum g = (Raise (DuplicateKeyError k), g)) /\
  (forall members value member rest v old,
     member_name member = k ->
     next_enum_value value member = Ok v ->
     dict_get members k = Some old ->
     enum_members_loop members value (member :: rest)
     = Raise (DuplicateKeyError k)) /\
  (consts_class (classes g) = UniqueOrderedDict_class ->
   forall t1 f1 value old,
     value = "" \/ (exists n, py_int value = Ok n) ->
     dict_get (consts_dict g) k = Some old ->
     recurse_token (Token "" t1 f1 "" k value) g
     = (Raise (DuplicateKeyError k), g)) /\
  (typedefs_class (classes g) = UniqueOrderedDict_class ->
   forall t1 f1 typename value old,
     str_truthy typename = true ->
     dict_get (typedefs_dict g) k = Some old ->
     recurse_token (Token "" t1 f1 typename k value) g
     = (Raise (DuplicateKeyError k), g)) /\
  (hints_class (classes g) = UniqueOrderedDict_class ->
   forall x member shape old,
     xmember_name member = k ->
     get_shape_tuple g (xmember_dims member) true = Ok shape ->
     dict_get (hints_dict g) k = Some old ->
     parse_hint x member g = (Raise (DuplicateKeyError k), g)) /\
  (forall name shape old,
     dict_get (index_dict g) k = Some old ->
     exists g',
       index_add k name shape g = (Ok tt, g') /\
       dict_keys (index_dict g') = dict_keys (index_dict g) /\
       dict_get (index_dict g') k = Some (dict_setitem old name shape)).
Proof.
  assert (forall V (d : dict V) old, dict_get d k = Some old -> dict_has d k = true)
    as Hhas by (intros V d old Hk; unfold dict_has; by rewrite Hk).
  split; [|split; [|split; [|split; [|split]]]].
  - intros Hu enum members old <- Hloop Hk.
    eapply parse_enum_duplicate_name; eauto.
  - intros members value member rest v old <- Hv Hk.
    cbn [enum_members_loop]. rewrite Hv. simpl.
    by rewrite UniqueOrderedDict_setitem_present by eauto.
  - intros Hu t1 f1 value old Hvalue Hk.
    rewrite recurse_token_leaf by done.
    change (str_truthy "") with false. cbv iota.
    assert (forall v, set_const k v g = (Raise (DuplicateKeyError k), g)) as Hset.
    { intros v. unfold set_const. rewrite Hu. simpl.
      by rewrite UniqueOrderedDict_setitem_present by eauto. }
    destruct Hvalue as [-> | [n Hn]]; [apply Hset|].
    assert (str_truthy value = true) as -> by (by destruct value).
    cbn [try_coerce_to_num]. rewrite Hn. apply Hset.
  - intros Hu t1 f1 typename value old Hty Hk.
    rewrite recurse_token_leaf by done. rewrite Hty.
    unfold set_typedef. rewrite Hu. simpl.
    by rewrite UniqueOrderedDict_setitem_present by eauto.
  - intros Hu x member shape old <- Hshape Hk.
    unfold parse_hint, bind. rewrite Hshape.
    unfold set_hint. rewrite Hu. simpl.
    by rewrite UniqueOrderedDict_setitem_present by eauto.
  - intros name shape old Hk. rewrite index_add_run. eexists. split; [done|].
    simpl. unfold add_field, ensure_struct. rewrite Hk.
    split; [apply dict_keys_modify|]. by rewrite dict_get_modify_eq, Hk.
Qed.

End DuplicateKeys.

Lemma duplicate_key_rejected_dup :
  parse_enum (EnumDecl "dup" [EnumMember "b" "" "" "4"]) session_dup
    = (Raise (DuplicateKeyError "dup"), session_dup) /\
  enum_members_loop [("dup", VInt 4)] 4 [EnumMember "dup" "" "" ""]
    = Raise (DuplicateKeyError "dup") /\
  recurse_token (Token "" [] [] "" "dup" "2") session_dup
    = (Raise (DuplicateKeyError "dup"), session_dup) /\
  recurse_token (Token "" [] [] "float" "dup" "") session_dup
    = (Raise (DuplicateKeyError "dup"), session_dup) /\
  @parse_hint macros_mjdata xmacro_scalars xmember_dup session_dup
    = (Raise (DuplicateKeyError "dup"), session_dup) /\
  exists g',
    index_add "dup" "qvel" (VTuple [VInt 6]) session_dup = (Ok tt, g') /\
    dict_keys (index_dict g') = dict_keys (index_dict session_dup) /\
    dict_get (index_dict g') "dup"
    = Some (dict_setitem [("qpos", VTuple [VInt 7])] "qvel" (VTuple [VInt 6])).
Proof.
  destruct (@duplicate_key_rejected macros_mjdata session_dup "dup")
    as (He & Hm & Hc & Ht & Hh & Hi).
  split; [exact (He eq_refl (EnumDecl "dup" [EnumMember "b" "" "" "4"])
                    [("b", VInt 4)] [("a", VInt 0)] eq_refl eq_refl eq_refl)|].
  split; [exact (Hm [("dup", VInt 4)] 4 (EnumMember "dup" "" "" "") [] 5 (VInt 4)
                    eq_refl eq_refl eq_refl)|].
  split; [exact (Hc eq_refl [] [] "2" (VInt 1)
                    (or_intror (ex_intro _ 2 eq_refl)) eq_refl)|].
  split; [exact (Ht eq_refl [] [] "float" "" (VStr "int") eq_refl eq_refl)|].
  split; [exact (Hh eq_refl xmacro_scalars xmember_dup [VInt 3] (VTuple [VInt 3])
                    eq_refl eq_refl eq_refl)|].
  exact (Hi "qvel" (VTuple [VInt 6]) [("qpos", VTuple [VInt 7])] eq_refl).
Defined.

(** The tables of a caller who passes plain dictionaries take the
    write: [#define dup 2] returns and replaces the constant [dup = 1],
    and an enum block named [dup] replaces the enum of that name. *)
Lemma plain_dict_overwrites_duplicate_key :
  dict_get (consts_dict session_dup_plain) "dup" = Some (VInt 1) /\
  fst (recurse_token (Token "" [] [] "" "dup" "2") session_dup_plain) = Ok tt /\
  dict_get (consts_dict (snd (recurse_token (Token "" [] [] "" "dup" "2")
                                            session_dup_plain))) "dup"
    = Some (VInt 2) /\
  dict_get (enums_dict session_dup_plain) "dup" = Some [("a", VInt 0)] /\
  fst (parse_enum (EnumDecl "dup" [EnumMember "b" "" "" "4"]) session_dup_plain)
    = Ok tt /\
  dict_get (enums_dict (snd (parse_enum (EnumDecl "dup" [EnumMember "b" "" "" "4"])
                                        session_dup_plain))) "dup"
    = Some [("b", VInt 4)].
Proof. repeat split. Qed.
